(** * dumpall: the two binary decoders

    A shallow embedding of [dumpall/thirdparty/dsstore.py] (the macOS
    .DS_Store metadata store) and of [dumpall/thirdparty/gin.py] (the Git
    staging index), with the properties of their specification.

    Python integers are [Z]; [bytes] values are [list byte]; a Python [str]
    is the list of its code points.  Methods that can raise return a
    [result]; methods that move a cursor pass the cursor explicitly.  The
    [Logger] calls of the sources only print and are left out. *)

From Stdlib Require Import ZArith List Lia Bool String DecimalString.
From Stdlib.Strings Require Import Byte.
From stdpp Require Import base gmap list.
Import ListNotations.
Open Scope Z_scope.

(** ** The fragment of Python both decoders rely on *)

Module Py.

(** A [str]: its code points. *)
Definition pystr := list Z.

(** The text of a literal, for messages and ASCII constants. *)
Definition lit (s : string) : pystr :=
  map (fun b => Z.of_N (Byte.to_N b)) (list_byte_of_string s).

(** [s == t] on strings. *)
Definition pystr_eqb (s t : pystr) : bool := bool_decide (s = t).

(** The exceptions the two modules can end with.  [ParsingError] is the
    class both modules declare; it carries its message.  [SystemExit] is
    what [sys.exit] raises. *)
Inductive exn :=
| ParsingError (msg : string)
| StructError
| UnicodeDecodeError
| IndexError
| ValueError
| SystemExit (code : Z).

Inductive result (A : Type) :=
| Ok (a : A)
| Raise (e : exn).
Arguments Ok {A} a.
Arguments Raise {A} e.

(** Sequencing stops at the first exception; written [x ← m; k]. *)
#[export] Instance result_ret : MRet result := fun A a => Ok a.
#[export] Instance result_bind : MBind result := fun A B k m =>
  match m with
  | Ok a => k a
  | Raise e => Raise e
  end.

Definition byte_val (b : byte) : Z := Z.of_N (Byte.to_N b).

#[export] Instance byte_eq_decision : EqDecision byte := Byte.byte_eq_dec.

Definition len {A} (l : list A) : Z := Z.of_nat (length l).

(** [l[a:b]] for integer bounds of either sign. *)
Definition slice_bound (n i : Z) : Z :=
  if i <? 0 then Z.max 0 (n + i) else Z.min i n.

Definition py_slice {A} (l : list A) (a b : Z) : list A :=
  let lo := slice_bound (len l) a in
  let hi := slice_bound (len l) b in
  if lo <? hi then firstn (Z.to_nat (hi - lo)) (skipn (Z.to_nat lo) l) else [].

(** [l[i]]: counts from the end for a negative [i], [IndexError] outside. *)
Definition py_index {A} (l : list A) (i : Z) : result A :=
  let j := if i <? 0 then len l + i else i in
  if (j <? 0) || (len l <=? j) then Raise IndexError
  else match l !! Z.to_nat j with
       | Some x => Ok x
       | None => Raise IndexError
       end.

(** Big-endian value of a byte string. *)
Definition be_uint (bs : list byte) : Z :=
  fold_left (fun acc b => acc * 256 + byte_val b) bs 0.

(** [struct.unpack] of one unsigned big-endian field of [size] bytes
    ([">B"], [">H"], [">I"]): [struct.error] unless the buffer has exactly
    that size. *)
Definition unpack_uint (size : Z) (bs : list byte) : result Z :=
  if len bs =? size then Ok (be_uint bs) else Raise StructError.

(** [struct.unpack(">II", bs)] and [struct.unpack(">III", bs)]. *)
Definition unpack_II (bs : list byte) : result (Z * Z) :=
  if len bs =? 8
  then Ok (be_uint (py_slice bs 0 4), be_uint (py_slice bs 4 8))
  else Raise StructError.

Definition unpack_III (bs : list byte) : result (Z * Z * Z) :=
  if len bs =? 12
  then Ok (be_uint (py_slice bs 0 4), be_uint (py_slice bs 4 8),
           be_uint (py_slice bs 8 12))
  else Raise StructError.

(** *** Codecs *)

Inductive errors := Strict | Replace.

Definition emit (cp : Z) (rest : result pystr) : result pystr :=
  s ← rest; Ok (cp :: s).

(** An undecodable run: [UnicodeDecodeError] in strict mode, U+FFFD with
    ["replace"]. *)
Definition bad (e : errors) (rest : result pystr) : result pystr :=
  match e with
  | Strict => Raise UnicodeDecodeError
  | Replace => emit 0xFFFD rest
  end.

Definition is_cont (c : Z) : bool := (0x80 <=? c) && (c <? 0xC0).

(** [bs.decode("utf-8", errors)], as CPython decodes: shortest forms only,
    no surrogates, nothing above U+10FFFF; an error covers the maximal
    well-formed prefix of the sequence it interrupts, and decoding resumes
    at the offending byte. *)
Fixpoint utf8_decode (e : errors) (bs : list byte) : result pystr :=
  match bs with
  | [] => Ok []
  | b1 :: r1 =>
    let c1 := byte_val b1 in
    if c1 <? 0x80 then emit c1 (utf8_decode e r1)
    else if c1 <? 0xC2 then bad e (utf8_decode e r1)
    else if c1 <? 0xE0 then
      match r1 with
      | [] => bad e (Ok [])
      | b2 :: r2 =>
        let c2 := byte_val b2 in
        if is_cont c2
        then emit ((c1 - 0xC0) * 64 + (c2 - 0x80)) (utf8_decode e r2)
        else bad e (utf8_decode e r1)
      end
    else if c1 <? 0xF0 then
      match r1 with
      | [] => bad e (Ok [])
      | b2 :: r2 =>
        let c2 := byte_val b2 in
        if negb (is_cont c2) || (if c2 <? 0xA0 then c1 =? 0xE0 else c1 =? 0xED)
        then bad e (utf8_decode e r1)
        else match r2 with
             | [] => bad e (Ok [])
             | b3 :: r3 =>
               let c3 := byte_val b3 in
               if is_cont c3
               then emit ((c1 - 0xE0) * 4096 + (c2 - 0x80) * 64 + (c3 - 0x80))
                         (utf8_decode e r3)
               else bad e (utf8_decode e r2)
             end
      end
    else if c1 <? 0xF5 then
      match r1 with
      | [] => bad e (Ok [])
      | b2 :: r2 =>
        let c2 := byte_val b2 in
        if negb (is_cont c2) || (if c2 <? 0x90 then c1 =? 0xF0 else c1 =? 0xF4)
        then bad e (utf8_decode e r1)
        else match r2 with
             | [] => bad e (Ok [])
             | b3 :: r3 =>
               let c3 := byte_val b3 in
               if negb (is_cont c3) then bad e (utf8_decode e r2)
               else match r3 with
                    | [] => bad e (Ok [])
                    | b4 :: r4 =>
                      let c4 := byte_val b4 in
                      if is_cont c4
                      then emit ((c1 - 0xF0) * 262144 + (c2 - 0x80) * 4096
                                 + (c3 - 0x80) * 64 + (c4 - 0x80))
                                (utf8_decode e r4)
                      else bad e (utf8_decode e r3)
                    end
             end
      end
    else bad e (utf8_decode e r1)
  end.

(** [bs.decode()]: UTF-8, strict. *)
Definition decode (bs : list byte) : result pystr := utf8_decode Strict bs.

(** [bs.decode("utf-8", "replace")] cannot raise. *)
Definition decode_utf8_replace (bs : list byte) : pystr :=
  match utf8_decode Replace bs with
  | Ok s => s
  | Raise _ => []
  end.

(** [bs.decode("ascii")]: strict. *)
Fixpoint decode_ascii (bs : list byte) : result pystr :=
  match bs with
  | [] => Ok []
  | b :: r =>
    if byte_val b <? 0x80 then emit (byte_val b) (decode_ascii r)
    else Raise UnicodeDecodeError
  end.

(** The 16-bit code units of a big-endian byte string; [None] for an odd
    number of bytes. *)
Fixpoint utf16be_units (bs : list byte) : option (list Z) :=
  match bs with
  | [] => Some []
  | [_] => None
  | hi :: lo :: r =>
    match utf16be_units r with
    | Some us => Some (byte_val hi * 256 + byte_val lo :: us)
    | None => None
    end
  end.

Definition is_high_surrogate (u : Z) : bool := (0xD800 <=? u) && (u <? 0xDC00).
Definition is_low_surrogate (u : Z) : bool := (0xDC00 <=? u) && (u <? 0xE000).

Fixpoint utf16_combine (us : list Z) : result pystr :=
  match us with
  | [] => Ok []
  | u :: r =>
    if is_high_surrogate u then
      match r with
      | [] => Raise UnicodeDecodeError
      | l :: r' =>
        if is_low_surrogate l
        then emit (0x10000 + (u - 0xD800) * 1024 + (l - 0xDC00)) (utf16_combine r')
        else Raise UnicodeDecodeError
      end
    else if is_low_surrogate u then Raise UnicodeDecodeError
    else emit u (utf16_combine r)
  end.

(** [bs.decode("utf-16be")]: strict, no byte-order mark handling. *)
Definition decode_utf16be (bs : list byte) : result pystr :=
  match utf16be_units bs with
  | Some us => utf16_combine us
  | None => Raise UnicodeDecodeError
  end.

End Py.

(** ** dsstore.py *)

Module DsStore.
Import Py.

(** *** class DataBlock: a byte buffer and a read position *)

Record DataBlock := mkDataBlock { data : list byte; pos : Z }.

(** [DataBlock(data)] *)
Definition new_DataBlock (d : list byte) : DataBlock :=
  {| data := d; pos := 0 |}.

Definition out_of_bounds : exn :=
  ParsingError "Requested length exceeds available data size.".

(** [offset_read(length, offset=None)]: with [offset] absent the read is at
    [pos] and moves it; with [offset] given the read is at that absolute
    offset and [pos] stays. *)
Definition offset_read (length : Z) (offset : option Z) (self : DataBlock)
  : result (list byte * DataBlock) :=
  let offset_position := match offset with None => pos self | Some o => o end in
  if len (data self) <? offset_position + length then Raise out_of_bounds
  else
    let self' := match offset with
                 | None => {| data := data self; pos := pos self + length |}
                 | Some _ => self
                 end in
    Ok (py_slice (data self) offset_position (offset_position + length), self').

Definition skip (length : Z) (self : DataBlock) : DataBlock :=
  {| data := data self; pos := pos self + length |}.

(** [struct.unpack(">I", self.offset_read(4))[0]] *)
Definition read_u32 (self : DataBlock) : result (Z * DataBlock) :=
  '(bs, self) ← offset_read 4 None self;
  v ← unpack_uint 4 bs;
  Ok (v, self).

Definition read_string (length : Z) (self : DataBlock)
  : result (pystr * DataBlock) :=
  '(raw_data, self) ← offset_read (length * 2) None self;
  decoded_string ← decode_utf16be raw_data;
  Ok (decoded_string, self).

Definition read_structure_type (self : DataBlock) : result (pystr * DataBlock) :=
  '(bs, self) ← offset_read 4 None self;
  structure_type ← decode bs;
  Ok (structure_type, self).

(** The [skip_mapping] table: ["blob"] reads its length from the block. *)
Definition _calculate_skip_length (structure_type : pystr) (self : DataBlock)
  : result (Z * DataBlock) :=
  if pystr_eqb structure_type (lit "bool") then Ok (1, self)
  else if pystr_eqb structure_type (lit "long") then Ok (4, self)
  else if pystr_eqb structure_type (lit "blob") then read_u32 self
  else Ok (0, self).

Definition read_filename (self : DataBlock) : result (pystr * DataBlock) :=
  '(length, self) ← read_u32 self;
  '(filename, self) ← read_string length self;
  '(structure_id, self) ← read_u32 self;
  '(structure_type, self) ← read_structure_type self;
  '(n, self) ← _calculate_skip_length structure_type self;
  Ok (filename, skip n self).

(** [[f() for _ in range(count)]] on a cursor: [count] calls in sequence,
    the first exception ends the comprehension. *)
Fixpoint repeat_read {A} (f : DataBlock -> result (A * DataBlock))
    (count : nat) (self : DataBlock) : result (list A * DataBlock) :=
  match count with
  | O => Ok ([], self)
  | S n =>
    '(x, self) ← f self;
    '(xs, self) ← repeat_read f n self;
    Ok (x :: xs, self)
  end.

(** [range(count)] runs [count] times, not at all for [count <= 0]. *)
Definition range_len (count : Z) : nat := Z.to_nat count.

(** *** class DS_Store *)

Record DS_Store := mkDS_Store {
  ds_data : list byte;
  block : DataBlock;
  header : DataBlock;
  offsets : list Z;
  toc : gmap pystr Z
}.

(** Returns the cursor carved at [offset + 4]; [self.block] has moved past
    the 36 header bytes. *)
Definition _read_header (d : list byte) (blk : DataBlock)
  : result (DataBlock * DataBlock) :=
  if len d <? 36
  then Raise (ParsingError "Data length insufficient for header parsing.")
  else
    '(bs, blk) ← offset_read 8 None blk;
    '(magic1, magic2) ← unpack_II bs;
    if negb (magic1 =? 0x1) || negb (magic2 =? 0x42756431)
    then Raise (ParsingError "Invalid magic bytes in header.")
    else
      '(bs, blk) ← offset_read 12 None blk;
      '(offset, size, offset2) ← unpack_III bs;
      if negb (offset =? offset2)
      then Raise (ParsingError "Header offset mismatch.")
      else
        let blk := skip 16 blk in
        '(root, blk) ← offset_read size (Some (offset + 4)) blk;
        Ok (new_DataBlock root, blk).

(** Reads through the cursor it is given; [DS_Store.__init__] gives it
    [self.block]. *)
Definition _read_offsets (blk : DataBlock) : result (list Z * DataBlock) :=
  '(count, blk) ← read_u32 blk;
  let blk := skip 4 blk in
  repeat_read read_u32 (range_len count) blk.

Definition read_toc_entry (blk : DataBlock)
  : result ((pystr * Z) * DataBlock) :=
  '(bs, blk) ← offset_read 1 None blk;
  toc_len ← unpack_uint 1 bs;
  '(bs, blk) ← offset_read toc_len None blk;
  toc_name ← decode bs;
  '(block_id, blk) ← read_u32 blk;
  Ok ((toc_name, block_id), blk).

(** [toc[toc_name] = block_id] for each entry, in file order. *)
Definition toc_of (entries : list (pystr * Z)) : gmap pystr Z :=
  fold_left (fun t e => <[fst e := snd e]> t) entries ∅.

Definition _read_toc (blk : DataBlock) : result (gmap pystr Z * DataBlock) :=
  '(count, blk) ← read_u32 blk;
  '(entries, blk) ← repeat_read read_toc_entry (range_len count) blk;
  Ok (toc_of entries, blk).

(** [DS_Store(data)] *)
Definition new_DS_Store (d : list byte) : result DS_Store :=
  let blk := new_DataBlock d in
  '(hdr, blk) ← _read_header d blk;
  '(offs, blk) ← _read_offsets blk;
  '(t, blk) ← _read_toc blk;
  Ok {| ds_data := d; block := blk; header := hdr; offsets := offs; toc := t |}.

(** The address word of a block: offset in the high bits, log2 of the size
    in the low five. *)
Definition block_offset (addr : Z) : Z := Z.land addr (Z.lnot 0x1F).
Definition block_size (addr : Z) : Z := Z.shiftl 1 (Z.land addr 0x1F).

Definition _block_by_id (self : DS_Store) (block_id : Z) : result DataBlock :=
  if len (offsets self) <=? block_id
  then Raise (ParsingError "Invalid block ID.")
  else
    addr ← py_index (offsets self) block_id;
    let offset := block_offset addr in
    let size := block_size addr in
    '(bs, _) ← offset_read size (Some (offset + 4)) (block self);
    Ok (new_DataBlock bs).

(** [struct.unpack(">II", node.offset_read(8))] *)
Definition read_node_header (node : DataBlock)
  : result ((Z * Z) * DataBlock) :=
  '(bs, node) ← offset_read 8 None node;
  p ← unpack_II bs;
  Ok (p, node).

(** The body of [traverse] up to its recursive call: the forward pointer
    and the filenames of one block. *)
Definition visit_block (self : DS_Store) (block_id : Z)
  : result (Z * list pystr) :=
  node ← _block_by_id self block_id;
  '(next_pointer, count, node) ← read_node_header node;
  '(filenames, node) ← repeat_read read_filename (range_len count) node;
  Ok (next_pointer, filenames).

(** [traverse]: [depth] bounds the nesting of the recursive calls; [None]
    is a traversal still recursing at that depth.  (CPython cuts a
    recursion deeper than its recursion limit with [RecursionError]; no
    limit is fixed here.) *)
Fixpoint traverse (depth : nat) (self : DS_Store) (block_id : Z)
  : option (result (list pystr)) :=
  match depth with
  | O => None
  | S depth =>
    match visit_block self block_id with
    | Raise e => Some (Raise e)
    | Ok (next_pointer, filenames) =>
      if 0 <? next_pointer
      then match traverse depth self next_pointer with
           | Some (Ok more) => Some (Ok (filenames ++ more))
           | Some (Raise e) => Some (Raise e)
           | None => None
           end
      else Some (Ok filenames)
    end
  end.

End DsStore.

(** ** gin.py *)

Module Gin.
Import Py.

(** The [mmap] object [f]: the file's bytes and the file position. *)
Record Mmap := mkMmap { buf : list byte; fpos : Z }.

(** [f.read(n)]: the bytes from the position on, at most [n] of them (all
    of them for a negative [n]); the position moves past what was
    returned.  Near the end of the file it returns fewer bytes, and none
    at the end. *)
Definition mmap_read (n : Z) (f : Mmap) : list byte * Mmap :=
  let stop := if n <? 0 then len (buf f) else fpos f + n in
  let bytes := py_slice (buf f) (fpos f) stop in
  (bytes, {| buf := buf f; fpos := fpos f + len bytes |}).

(** The local [read(format)] of [parse], for the one-field formats ["I"]
    (4 bytes) and ["H"] (2 bytes). *)
Definition read (size : Z) (f : Mmap) : result (Z * Mmap) :=
  let '(bytes, f) := mmap_read size f in
  v ← unpack_uint size bytes;
  Ok (v, f).

Definition hex_digit (d : Z) : Z := if d <? 10 then 48 + d else 87 + d.

(** [binascii.hexlify(bs).decode("ascii")] *)
Definition hexlify (bs : list byte) : pystr :=
  flat_map (fun b => [hex_digit (byte_val b / 16); hex_digit (byte_val b mod 16)]) bs.

Fixpoint oct_digits (fuel : nat) (n : Z) (acc : pystr) : pystr :=
  match fuel with
  | O => acc
  | S fuel =>
    if n <? 8 then (48 + n) :: acc
    else oct_digits fuel (n / 8) ((48 + n mod 8) :: acc)
  end.

(** [f"{n:06o}"] for a 32-bit [n]: octal, zero-padded to six digits. *)
Definition format_06o (n : Z) : pystr :=
  let ds := oct_digits 11 n [] in
  repeat 48 (6 - length ds)%nat ++ ds.

Record Header := mkHeader {
  signature : pystr;
  version : Z;
  entries : Z
}.

Record Entry := mkEntry {
  entry : Z;
  ctime_seconds : Z;
  ctime_nanoseconds : Z;
  mtime_seconds : Z;
  mtime_nanoseconds : Z;
  dev : Z;
  ino : Z;
  mode : pystr;
  uid : Z;
  gid : Z;
  size : Z;
  sha1 : pystr;
  flags : Z;
  name : pystr
}.

Record Extension := mkExtension {
  ext_signature : pystr;
  ext_size : Z;
  ext_data : pystr
}.

Record Checksum := mkChecksum {
  checksum : bool;
  checksum_sha1 : pystr
}.

(** What the generator [parse] yields. *)
Inductive item :=
| IHeader (h : Header)
| IEntry (e : Entry)
| IExtension (x : Extension)
| IChecksum (c : Checksum).

(** [Logger.check]: on a false condition one line on stderr, then
    [sys.exit(1)]. *)
Definition check (condition : bool) (message : string) : list string * result unit :=
  if condition then ([], Ok tt)
  else ([String.append "[ERROR] " message], Raise (SystemExit 1)).

(** The [while] loop of [_read_name]: [fuel] bounds its iterations, [None]
    is a loop still running after that many. *)
Fixpoint read_name_loop (fuel : nat) (f : Mmap) (name : list (list byte))
  : option (list (list byte) * Mmap) :=
  match fuel with
  | O => None
  | S fuel =>
    let '(byte, f) := mmap_read 1 f in
    if bool_decide (byte = [x00]) then Some (name, f)
    else read_name_loop fuel f (name ++ [byte])
  end.

(** The bytes of the name, before [.decode("utf-8", "replace")]. *)
Definition read_name_bytes (fuel : nat) (f : Mmap) (flags : Z)
  : option (list byte * Mmap) :=
  let namelen := Z.land flags 0xFFF in
  if namelen <? 0xFFF then Some (mmap_read namelen f)
  else match read_name_loop fuel f [] with
       | Some (name, f) => Some (concat name, f)
       | None => None
       end.

Definition _read_name (fuel : nat) (f : Mmap) (flags : Z)
  : option (pystr * Mmap) :=
  match read_name_bytes fuel f flags with
  | Some (raw, f) => Some (decode_utf8_replace raw, f)
  | None => None
  end.

(** The fixed-width fields of an entry, up to and including the flags. *)
Definition read_entry_fields (f : Mmap) (entry_number : Z)
  : result ((pystr -> Entry) * Z * Mmap) :=
  '(ctime_s, f) ← read 4 f;
  '(ctime_ns, f) ← read 4 f;
  '(mtime_s, f) ← read 4 f;
  '(mtime_ns, f) ← read 4 f;
  '(dev_, f) ← read 4 f;
  '(ino_, f) ← read 4 f;
  '(mode_, f) ← read 4 f;
  '(uid_, f) ← read 4 f;
  '(gid_, f) ← read 4 f;
  '(size_, f) ← read 4 f;
  let '(hash, f) := mmap_read 20 f in
  '(flags_, f) ← read 2 f;
  Ok (mkEntry entry_number ctime_s ctime_ns mtime_s mtime_ns dev_ ino_
        (format_06o mode_) uid_ gid_ size_ (hexlify hash) flags_,
      flags_, f).

Definition _parse_entry (fuel : nat) (f : Mmap) (entry_number : Z)
  : option (result (Entry * Mmap)) :=
  match read_entry_fields f entry_number with
  | Raise e => Some (Raise e)
  | Ok (mk, flags_, f) =>
    match _read_name fuel f flags_ with
    | Some (name_, f) => Some (Ok (mk name_, f))
    | None => None
    end
  end.

Definition _parse_extension (f : Mmap) : result (Extension * Mmap) :=
  let '(bs, f) := mmap_read 4 f in
  sig ← decode_ascii bs;
  '(size_, f) ← read 4 f;
  let '(payload, f) := mmap_read size_ f in
  Ok (mkExtension sig size_ (decode_utf8_replace payload), f).

Definition _parse_checksum (f : Mmap) : Checksum * Mmap :=
  let '(bs, f) := mmap_read 20 f in
  (mkChecksum true (hexlify bs), f).

(** [for n in range(entries): yield self._parse_entry(f, read, n + 1)]:
    [count] iterations left, [n] the index of the next one.  The result is
    the entries yielded and how the loop ended: the cursor after it, or
    the exception that cut it. *)
Fixpoint parse_entries (fuel : nat) (count : nat) (n : Z) (f : Mmap)
  : option (list item * result Mmap) :=
  match count with
  | O => Some ([], Ok f)
  | S count =>
    match _parse_entry fuel f (n + 1) with
    | None => None
    | Some (Raise e) => Some ([], Raise e)
    | Some (Ok (e, f)) =>
      match parse_entries fuel count (n + 1) f with
      | Some (items, r) => Some (IEntry e :: items, r)
      | None => None
      end
    end
  end.

(** [while f.tell() < (len(f) - 20): yield self._parse_extension(f, read)] *)
Fixpoint parse_extensions (fuel : nat) (f : Mmap)
  : option (list item * result Mmap) :=
  match fuel with
  | O => None
  | S fuel =>
    if fpos f <? len (buf f) - 20 then
      match _parse_extension f with
      | Raise e => Some ([], Raise e)
      | Ok (x, f) =>
        match parse_extensions fuel f with
        | Some (items, r) => Some (IExtension x :: items, r)
        | None => None
        end
      end
    else Some ([], Ok f)
  end.

(** How a run of the generator ends. *)
Inductive ending :=
| Finished
| Raised (e : exn).

Record run := mkRun {
  yielded : list item;
  stderr : list string;
  ended : ending
}.

Definition str_of_int (n : Z) : string := NilZero.string_of_int (Z.to_int n).

(** The header part of [parse]: what it wrote to stderr, and the header
    record with the cursor behind it, or the exception that ended it. *)
Definition parse_header (f : Mmap) : list string * result (Header * Mmap) :=
  let '(bs, f) := mmap_read 4 f in
  match decode_ascii bs with
  | Raise e => ([], Raise e)
  | Ok signature_ =>
    match check (pystr_eqb signature_ (lit "DIRC")) "Not a Git index file." with
    | (err, Raise e) => (err, Raise e)
    | (_, Ok _) =>
      match read 4 f with
      | Raise e => ([], Raise e)
      | Ok (version_, f) =>
        match check ((version_ =? 2) || (version_ =? 3))
                    (String.append "Unsupported version: " (str_of_int version_)) with
        | (err, Raise e) => (err, Raise e)
        | (_, Ok _) =>
          match read 4 f with
          | Raise e => ([], Raise e)
          | Ok (entries_, f) => ([], Ok (mkHeader signature_ version_ entries_, f))
          end
        end
      end
    end
  end.

(** [GitIndexParser.parse], run to its end on a file with the given
    content.  [mmap.mmap] refuses an empty file with [ValueError].  [None]
    is a run that is still inside one of its [while] loops after [fuel]
    iterations. *)
Definition parse (fuel : nat) (content : list byte) : option run :=
  if len content =? 0 then Some (mkRun [] [] (Raised ValueError))
  else
    match parse_header {| buf := content; fpos := 0 |} with
    | (err, Raise e) => Some (mkRun [] err (Raised e))
    | (err, Ok (h, f)) =>
      let index := IHeader h in
      match parse_entries fuel (Z.to_nat (entries h)) 0 f with
      | None => None
      | Some (es, Raise e) => Some (mkRun (index :: es) err (Raised e))
      | Some (es, Ok f) =>
        match parse_extensions fuel f with
        | None => None
        | Some (xs, Raise e) => Some (mkRun (index :: es ++ xs) err (Raised e))
        | Some (xs, Ok f) =>
          let '(c, f) := _parse_checksum f in
          Some (mkRun (index :: es ++ xs ++ [IChecksum c]) err Finished)
        end
      end
    end.

(** [parse_file] prints every item of [parse]; it catches nothing, and
    neither does [main], so the run of the process ends as [parse] does. *)
Definition parse_file (fuel : nat) (content : list byte) : option run :=
  parse fuel content.

End Gin.

(** ** Sample files *)

Import Py DsStore.

(** A store whose root table sits right behind the header (root offset 32,
    so at byte 36): three address words, the entry [DSDB -> 1], block 1
    at bytes 100..163 with two records ("a", "b.c") and forward pointer 2,
    block 2 at bytes 164..195 with one record ("d") and forward pointer 0. *)
Definition chain_store_bytes : list byte :=
  [x00; x00; x00; x01; x42; x75; x64; x31; x00; x00; x00; x20;
   x00; x00; x00; xa0; x00; x00; x00; x20; x00; x00; x00; x00;
   x00; x00; x00; x00; x00; x00; x00; x00; x00; x00; x00; x00;
   x00; x00; x00; x03; x00; x00; x00; x00; x00; x00; x00; x05;
   x00; x00; x00; x66; x00; x00; x00; xa5; x00; x00; x00; x01;
   x04; x44; x53; x44; x42; x00; x00; x00; x01; x00; x00; x00;
   x00; x00; x00; x00; x00; x00; x00; x00; x00; x00; x00; x00;
   x00; x00; x00; x00; x00; x00; x00; x00; x00; x00; x00; x00;
   x00; x00; x00; x00; x00; x00; x00; x02; x00; x00; x00; x02;
   x00; x00; x00; x01; x00; x61; x49; x6c; x6f; x63; x62; x6f;
   x6f; x6c; x01; x00; x00; x00; x03; x00; x62; x00; x2e; x00;
   x63; x76; x53; x72; x6e; x6c; x6f; x6e; x67; x00; x00; x00;
   x01; x00; x00; x00; x00; x00; x00; x00; x00; x00; x00; x00;
   x00; x00; x00; x00; x00; x00; x00; x00; x00; x00; x00; x00;
   x00; x00; x00; x01; x00; x00; x00; x01; x00; x64; x42; x4b;
   x47; x44; x62; x6c; x6f; x62; x00; x00; x00; x02; xaa; xbb;
   x00; x00; x00; x00].

(** Block 1 (bytes 68..99) names itself as its continuation. *)
Definition looping_store_bytes : list byte :=
  [x00; x00; x00; x01; x42; x75; x64; x31; x00; x00; x00; x20;
   x00; x00; x00; x40; x00; x00; x00; x20; x00; x00; x00; x00;
   x00; x00; x00; x00; x00; x00; x00; x00; x00; x00; x00; x00;
   x00; x00; x00; x02; x00; x00; x00; x00; x00; x00; x00; x05;
   x00; x00; x00; x45; x00; x00; x00; x01; x04; x44; x53; x44;
   x42; x00; x00; x00; x01; x00; x00; x00; x00; x00; x00; x01;
   x00; x00; x00; x00; x00; x00; x00; x00; x00; x00; x00; x00;
   x00; x00; x00; x00; x00; x00; x00; x00; x00; x00; x00; x00;
   x00; x00; x00; x00].

(** Block 1 (bytes 68..99) has forward pointer 0 and record count 0. *)
Definition empty_block_store_bytes : list byte :=
  [x00; x00; x00; x01; x42; x75; x64; x31; x00; x00; x00; x20;
   x00; x00; x00; x40; x00; x00; x00; x20; x00; x00; x00; x00;
   x00; x00; x00; x00; x00; x00; x00; x00; x00; x00; x00; x00;
   x00; x00; x00; x02; x00; x00; x00; x00; x00; x00; x00; x05;
   x00; x00; x00; x45; x00; x00; x00; x01; x04; x44; x53; x44;
   x42; x00; x00; x00; x01; x00; x00; x00; x00; x00; x00; x00;
   x00; x00; x00; x00; x00; x00; x00; x00; x00; x00; x00; x00;
   x00; x00; x00; x00; x00; x00; x00; x00; x00; x00; x00; x00;
   x00; x00; x00; x00].

(** A store laid out as the format has it, the root table away from the
    header: root offset 60, so the table (one address word, [DSDB -> 0])
    starts at byte 64; bytes 36..63 are zero. *)
Definition displaced_root_bytes : list byte :=
  [x00; x00; x00; x01; x42; x75; x64; x31; x00; x00; x00; x3c;
   x00; x00; x00; x19; x00; x00; x00; x3c; x00; x00; x00; x00;
   x00; x00; x00; x00; x00; x00; x00; x00; x00; x00; x00; x00;
   x00; x00; x00; x00; x00; x00; x00; x00; x00; x00; x00; x00;
   x00; x00; x00; x00; x00; x00; x00; x00; x00; x00; x00; x00;
   x00; x00; x00; x00; x00; x00; x00; x01; x00; x00; x00; x00;
   x00; x00; x00; x05; x00; x00; x00; x01; x04; x44; x53; x44;
   x42; x00; x00; x00; x00].

(** Signature "DIRD". *)
Definition bad_signature_index : list byte :=
  [x44; x49; x52; x44; x00; x00; x00; x02; x00; x00; x00; x00].

(** Signature "DIRC", version 4. *)
Definition bad_version_index : list byte :=
  [x44; x49; x52; x43; x00; x00; x00; x04; x00; x00; x00; x00].

(** One entry, flags 0x0FFF, and a name "abc" that runs to the end of
    the file without a zero byte. *)
Definition unterminated_name_index : list byte :=
  [x44; x49; x52; x43; x00; x00; x00; x02; x00; x00; x00; x01;
   x00; x00; x00; x01; x00; x00; x00; x02; x00; x00; x00; x03;
   x00; x00; x00; x04; x00; x00; x00; x05; x00; x00; x00; x06;
   x00; x00; x81; xa4; x00; x00; x00; x08; x00; x00; x00; x09;
   x00; x00; x00; x0a; x00; x01; x02; x03; x04; x05; x06; x07;
   x08; x09; x0a; x0b; x0c; x0d; x0e; x0f; x10; x11; x12; x13;
   x0f; xff; x61; x62; x63].

(** One entry, flags 0x0FFF, the name "abc", its terminator, and the
    20 checksum bytes. *)
Definition terminated_name_index : list byte :=
  [x44; x49; x52; x43; x00; x00; x00; x02; x00; x00; x00; x01;
   x00; x00; x00; x01; x00; x00; x00; x02; x00; x00; x00; x03;
   x00; x00; x00; x04; x00; x00; x00; x05; x00; x00; x00; x06;
   x00; x00; x81; xa4; x00; x00; x00; x08; x00; x00; x00; x09;
   x00; x00; x00; x0a; x00; x01; x02; x03; x04; x05; x06; x07;
   x08; x09; x0a; x0b; x0c; x0d; x0e; x0f; x10; x11; x12; x13;
   x0f; xff; x61; x62; x63; x00; x00; x01; x02; x03; x04; x05;
   x06; x07; x08; x09; x0a; x0b; x0c; x0d; x0e; x0f; x10; x11;
   x12; x13].

(** One entry, flags 5, and only three bytes after the flags. *)
Definition short_name_index : list byte :=
  [x44; x49; x52; x43; x00; x00; x00; x02; x00; x00; x00; x01;
   x00; x00; x00; x01; x00; x00; x00; x02; x00; x00; x00; x03;
   x00; x00; x00; x04; x00; x00; x00; x05; x00; x00; x00; x06;
   x00; x00; x81; xa4; x00; x00; x00; x08; x00; x00; x00; x09;
   x00; x00; x00; x0a; x00; x01; x02; x03; x04; x05; x06; x07;
   x08; x09; x0a; x0b; x0c; x0d; x0e; x0f; x10; x11; x12; x13;
   x00; x05; x61; x62; x63].

(** One entry, flags 5, the name "a.txt", and the 20 checksum bytes. *)
Definition full_name_index : list byte :=
  [x44; x49; x52; x43; x00; x00; x00; x02; x00; x00; x00; x01;
   x00; x00; x00; x01; x00; x00; x00; x02; x00; x00; x00; x03;
   x00; x00; x00; x04; x00; x00; x00; x05; x00; x00; x00; x06;
   x00; x00; x81; xa4; x00; x00; x00; x08; x00; x00; x00; x09;
   x00; x00; x00; x0a; x00; x01; x02; x03; x04; x05; x06; x07;
   x08; x09; x0a; x0b; x0c; x0d; x0e; x0f; x10; x11; x12; x13;
   x00; x05; x61; x2e; x74; x78; x74; x00; x01; x02; x03; x04;
   x05; x06; x07; x08; x09; x0a; x0b; x0c; x0d; x0e; x0f; x10;
   x11; x12; x13].

(** No entry, and 21 bytes after the header: an extension header "TREE"
    of size 0 and 13 more bytes. *)
Definition tight_extension_index : list byte :=
  [x44; x49; x52; x43; x00; x00; x00; x02; x00; x00; x00; x00;
   x54; x52; x45; x45; x00; x00; x00; x00; x00; x01; x02; x03;
   x04; x05; x06; x07; x08; x09; x0a; x0b; x0c].

(** No entry, an extension "TREE" with the payload "xyz", and the 20
    checksum bytes. *)
Definition fitting_extension_index : list byte :=
  [x44; x49; x52; x43; x00; x00; x00; x02; x00; x00; x00; x00;
   x54; x52; x45; x45; x00; x00; x00; x03; x78; x79; x7a; x00;
   x01; x02; x03; x04; x05; x06; x07; x08; x09; x0a; x0b; x0c;
   x0d; x0e; x0f; x10; x11; x12; x13].


(** ** Notions used in the statements *)

(** The start of a read: the position, or the absolute offset when given. *)
Definition read_start (self : DataBlock) (offset : option Z) : Z :=
  match offset with
  | None => pos self
  | Some o => o
  end.

(** Re-encoding of a decoded address: [offset | log2(size)]. *)
Definition encode_address (offset size : Z) : Z := Z.lor offset (Z.log2 size).

Definition invalid_block_id : exn := ParsingError "Invalid block ID.".

(** Block resolution with the block carved from the root-table buffer,
    the cursor [_read_header] returns and [__init__] keeps in
    [self.header]. *)
Definition block_in_root_table (self : DS_Store) (block_id : Z) : result DataBlock :=
  if len (offsets self) <=? block_id then Raise invalid_block_id
  else
    addr ← py_index (offsets self) block_id;
    '(bs, _) ← offset_read (block_size addr) (Some (block_offset addr + 4)) (header self);
    Ok (new_DataBlock bs).

(** Construction with steps (c) and (d) reading from the root-table
    buffer of step (b): the offset table and the table of contents it
    gives. *)
Definition tables_in_root_table (d : list byte) : result (list Z * gmap pystr Z) :=
  '(root, _) ← _read_header d (new_DataBlock d);
  '(offs, root) ← _read_offsets root;
  '(t, root) ← _read_toc root;
  Ok (offs, t).

(** The filenames of the [count] records that lie one behind the other at
    the cursor [node], in that order. *)
Inductive block_records : DataBlock -> nat -> list pystr -> Prop :=
| records_done node : block_records node 0 []
| records_next node node' filename count filenames :
    read_filename node = Ok (filename, node') ->
    block_records node' count filenames ->
    block_records node (S count) (filename :: filenames).

(** A well-formed record chain from [block_id]: every block on it resolves
    and decodes, and the forward pointers lead to a block whose pointer is
    0.  The list has, for each block in the order of the pointers, the
    filenames of its records. *)
Inductive record_chain (self : DS_Store) : Z -> list (list pystr) -> Prop :=
| chain_last block_id node node' count filenames :
    _block_by_id self block_id = Ok node ->
    read_node_header node = Ok ((0, count), node') ->
    block_records node' (range_len count) filenames ->
    record_chain self block_id [filenames]
| chain_link block_id node node' next_pointer count filenames rest :
    _block_by_id self block_id = Ok node ->
    read_node_header node = Ok ((next_pointer, count), node') ->
    next_pointer <> 0 ->
    block_records node' (range_len count) filenames ->
    record_chain self next_pointer rest ->
    record_chain self block_id (filenames :: rest).

(** The bytes between the position and the end of the file. *)
Definition remaining (f : Gin.Mmap) : Z := len (Gin.buf f) - Gin.fpos f.

(** The signature of a Git index, as bytes. *)
Definition DIRC : list byte := [x44; x49; x52; x43].

(** A cursor at position 1 of five bytes. *)
Definition five_bytes_at_1 : DataBlock :=
  {| data := [x00; x01; x02; x03; x04]; pos := 1 |}.

(** The cursor of [parse] behind the header of [tight_extension_index]. *)
Definition tight_extension_cursor : Gin.Mmap :=
  {| Gin.buf := tight_extension_index; Gin.fpos := 12 |}.

(** The cursor of [parse] behind the header of [fitting_extension_index]. *)
Definition fitting_extension_cursor : Gin.Mmap :=
  {| Gin.buf := fitting_extension_index; Gin.fpos := 12 |}.

(** The store [DS_Store(looping_store_bytes)]. *)
Definition looping_store : DS_Store :=
  {| ds_data := looping_store_bytes;
     block := {| data := looping_store_bytes; pos := 65 |};
     header := new_DataBlock (skipn 36 looping_store_bytes);
     offsets := [0x05; 0x45];
     toc := {[ lit "DSDB" := 1 ]} |}.

(** The store [DS_Store(empty_block_store_bytes)]. *)
Definition empty_block_store : DS_Store :=
  {| ds_data := empty_block_store_bytes;
     block := {| data := empty_block_store_bytes; pos := 65 |};
     header := new_DataBlock (skipn 36 empty_block_store_bytes);
     offsets := [0x05; 0x45];
     toc := {[ lit "DSDB" := 1 ]} |}.

(** The store [DS_Store(chain_store_bytes)]. *)
Definition chain_store : DS_Store :=
  {| ds_data := chain_store_bytes;
     block := {| data := chain_store_bytes; pos := 69 |};
     header := new_DataBlock (skipn 36 chain_store_bytes);
     offsets := [0x05; 0x66; 0xA5];
     toc := {[ lit "DSDB" := 1 ]} |}.

(** The 32-bit big-endian word at byte [p] of [d]. *)
Definition word_at (d : list byte) (p : Z) : Z := be_uint (py_slice d p (p + 4)).

(** The [n] consecutive 32-bit words of [d] from byte [p] on. *)
Definition words_at (d : list byte) (p : Z) (n : nat) : list Z :=
  map (fun i => word_at d (p + 4 * Z.of_nat i)) (seq 0 n).

(** The bytes a filename record has behind its structure type, which
    starts at byte [p - 4] of [d]: the [skip_mapping] of
    [_calculate_skip_length], with the length word of a blob counted in. *)
Definition trailing_bytes (d : list byte) (p : Z) (structure_type : pystr) : Z :=
  if pystr_eqb structure_type (lit "bool") then 1
  else if pystr_eqb structure_type (lit "long") then 4
  else if pystr_eqb structure_type (lit "blob") then 4 + word_at d p
  else 0.

(** All bytes are below 0x80. *)
Definition is_ascii (bs : list byte) : bool :=
  forallb (fun b => byte_val b <? 0x80) bs.

(** A cursor over one filename record, "a" with the structure type
    "bool", whose trailing byte is missing. *)
Definition dangling_record : DataBlock :=
  new_DataBlock
    [x00; x00; x00; x01; x00; x61; x49; x6c; x6f; x63; x62; x6f; x6f; x6c].

(** The position of an [mmap] object lies within the file. *)
Definition cursor_ok (f : Gin.Mmap) : Prop :=
  0 <= Gin.fpos f <= len (Gin.buf f).

(** The run of the decoder on [full_name_index]. *)
Definition full_name_run : Gin.run :=
  default (Gin.mkRun [] [] Gin.Finished) (Gin.parse 1 full_name_index).

(** The run of the decoder on [bad_signature_index]. *)
Definition bad_signature_run : Gin.run :=
  Gin.mkRun [] ["[ERROR] Not a Git index file."%string] (Gin.Raised (SystemExit 1)).

(** The run of the decoder on [terminated_name_index]. *)
Definition terminated_name_run : Gin.run :=
  default (Gin.mkRun [] [] Gin.Finished) (Gin.parse 4 terminated_name_index).



(** ** Properties of the codecs *)

(** With ["replace"] the UTF-8 decoder returns a string for every input. *)
Lemma utf8_decode_replace_Ok bs : exists s, utf8_decode Replace bs = Ok s.
Proof.
  enough (forall n bs, (length bs <= n)%nat -> exists s, utf8_decode Replace bs = Ok s)
    as Hall by (apply (Hall (length bs)); lia).
  clear bs. induction n as [|n IH]; intros [|b1 r1] Hlen;
    simpl in Hlen; try lia; try (exists []; reflexivity).
  simpl utf8_decode.
  repeat match goal with
         | |- context [if ?c then _ else _] => destruct c
         | |- context [match ?l with [] => _ | _ :: _ => _ end] =>
           destruct l as [|? ?]; cbv beta iota
         end;
    unfold bad, emit;
    try match goal with
        | |- context [utf8_decode Replace ?r] =>
          destruct (IH r ltac:(simpl in *; lia)) as [s ->]
        end;
    now eexists.
Qed.

Lemma decode_utf8_replace_eq bs : utf8_decode Replace bs = Ok (decode_utf8_replace bs).
Proof.
  unfold decode_utf8_replace. now destruct (utf8_decode_replace_Ok bs) as [s ->].
Qed.

(** ** Properties of the cursor *)

Section Slices.
Context {A : Type}.
Implicit Types (l : list A) (a b n : Z).

Lemma len_nonneg l : 0 <= len l.
Proof. unfold len. lia. Qed.

(** A slice that lies inside the list is the plain sub-list. *)
Lemma py_slice_inside l a n :
  0 <= a -> 0 <= n -> a + n <= len l ->
  py_slice l a (a + n) = firstn (Z.to_nat n) (skipn (Z.to_nat a) l).
Proof.
  intros Ha Hn Hfit. unfold py_slice, slice_bound.
  destruct (Z.ltb_spec a 0); [lia|].
  destruct (Z.ltb_spec (a + n) 0); [lia|].
  rewrite !Z.min_l by lia.
  destruct (Z.ltb_spec a (a + n)).
  - do 2 f_equal. lia.
  - replace n with 0 by lia. reflexivity.
Qed.

Lemma len_py_slice_inside l a n :
  0 <= a -> 0 <= n -> a + n <= len l -> len (py_slice l a (a + n)) = n.
Proof.
  intros Ha Hn Hfit. rewrite py_slice_inside by assumption.
  unfold len in *. rewrite length_take, length_drop. lia.
Qed.

(** A slice from a position inside the list stops at the end of the list. *)
Lemma py_slice_clipped l a n :
  0 <= a -> 0 <= n ->
  py_slice l a (a + n) = firstn (Z.to_nat n) (skipn (Z.to_nat a) l).
Proof.
  intros Ha Hn. unfold py_slice, slice_bound.
  destruct (Z.ltb_spec a 0); [lia|].
  destruct (Z.ltb_spec (a + n) 0); [lia|].
  pose proof (len_nonneg l) as Hl. unfold len in *.
  destruct (Z.ltb_spec (Z.min a (Z.of_nat (length l)))
                       (Z.min (a + n) (Z.of_nat (length l)))) as [Hlt|Hge].
  - assert (a < Z.of_nat (length l)) by lia.
    rewrite (Z.min_l a) by lia.
    destruct (Z.le_ge_cases (a + n) (Z.of_nat (length l))).
    + rewrite Z.min_l by lia. do 2 f_equal. lia.
    + rewrite Z.min_r by lia.
      rewrite !firstn_all2; [reflexivity| |]; rewrite length_drop; lia.
  - destruct (Z.le_gt_cases (Z.of_nat (length l)) a).
    + rewrite skipn_all2 by lia. now rewrite firstn_nil.
    + replace n with 0 by lia. reflexivity.
Qed.

Lemma len_py_slice_clipped l a n :
  0 <= a -> 0 <= n ->
  len (py_slice l a (a + n)) = Z.max 0 (Z.min n (len l - a)).
Proof.
  intros Ha Hn. rewrite py_slice_clipped by assumption.
  unfold len. rewrite length_take, length_drop. lia.
Qed.

(** A slice of a slice inside the list is a slice of the list. *)
Lemma py_slice_py_slice l a b c e :
  0 <= a -> a <= b -> b <= len l -> 0 <= c -> c <= e -> e <= b - a ->
  py_slice (py_slice l a b) c e = py_slice l (a + c) (a + e).
Proof.
  intros Ha Hab Hb Hc Hce He.
  replace b with (a + (b - a)) by lia.
  replace e with (c + (e - c)) at 1 by lia.
  replace (a + e) with (a + c + (e - c)) by lia.
  assert (len (py_slice l a (a + (b - a))) = b - a) as Hlen
    by (apply len_py_slice_inside; lia).
  rewrite (py_slice_inside (py_slice l a (a + (b - a)))) by lia.
  rewrite !py_slice_inside by lia.
  rewrite skipn_firstn_comm, skipn_skipn, firstn_firstn.
  f_equal; [lia|]. f_equal. lia.
Qed.
End Slices.

(** C6.  A read of [n] bytes fails, with the out-of-bounds error, exactly
    when its start plus [n] exceeds the buffer length; the start is the
    position for a sequential read and the given offset for an absolute one.
    Otherwise it returns exactly the [n] bytes found at its start; a
    sequential read advances the position by [n] and an absolute read
    leaves the cursor as it was. *)
Theorem offset_read_bounds (self : DataBlock) (n : Z) (offset : option Z) :
  (offset_read n offset self = Raise out_of_bounds
     <-> len (data self) < read_start self offset + n)
  /\ (read_start self offset + n <= len (data self) ->
      0 <= n -> 0 <= read_start self offset ->
      exists bs self',
        offset_read n offset self = Ok (bs, self')
        /\ len bs = n
        /\ bs = firstn (Z.to_nat n) (skipn (Z.to_nat (read_start self offset)) (data self))
        /\ data self' = data self
        /\ pos self' = match offset with
                       | None => pos self + n
                       | Some _ => pos self
                       end).
Proof.
  unfold offset_read.
  change (match offset with None => pos self | Some o => o end)
    with (read_start self offset).
  destruct (Z.ltb_spec (len (data self)) (read_start self offset + n)) as [Hlt|Hge].
  - split; [tauto|lia].
  - split.
    + split; [discriminate|lia].
    + intros _ Hn Hstart. eexists _, _. split; [reflexivity|].
      split; [now apply len_py_slice_inside|].
      split; [now apply py_slice_inside|].
      destruct offset; simpl; auto.
Qed.

(** Reads of a five-byte buffer from position 1. *)
Lemma offset_read_bounds_witness :
  (offset_read 3 None five_bytes_at_1 = Raise out_of_bounds
     <-> len (data five_bytes_at_1) < read_start five_bytes_at_1 None + 3)
  /\ (exists bs self',
        offset_read 3 None five_bytes_at_1 = Ok (bs, self')
        /\ len bs = 3
        /\ bs = firstn 3 (skipn 1 (data five_bytes_at_1))
        /\ data self' = data five_bytes_at_1
        /\ pos self' = pos five_bytes_at_1 + 3)
  /\ offset_read 2 (Some 3) five_bytes_at_1 = Ok ([x03; x04], five_bytes_at_1)
  /\ offset_read 3 (Some 3) five_bytes_at_1 = Raise out_of_bounds.
Proof.
  split; [apply (offset_read_bounds five_bytes_at_1 3 None)|].
  split.
  - apply (offset_read_bounds five_bytes_at_1 3 None);
      [vm_compute; discriminate | lia | simpl; lia].
  - split; reflexivity.
Defined.

(** C10.  [skip] has no bounds check: it cannot fail and adds [n] to the
    position whatever the buffer length, so the position can come to lie
    beyond the end of the buffer.  A sequential read that succeeds leaves
    the position within the buffer, and a sequential read from a position
    beyond the end fails with the out-of-bounds error. *)
Theorem skip_is_unchecked :
  (forall self n, data (skip n self) = data self /\ pos (skip n self) = pos self + n)
  /\ (exists self n,
        pos self <= len (data self)
        /\ len (data (skip n self)) < pos (skip n self))
  /\ (forall self n bs self',
        offset_read n None self = Ok (bs, self') ->
        pos self' <= len (data self'))
  /\ (forall self k n,
        0 <= n -> len (data self) < pos self + k ->
        offset_read n None (skip k self) = Raise out_of_bounds).
Proof.
  split; [intros; split; reflexivity|].
  split.
  { exists (new_DataBlock [x00; x01]), 16. split; vm_compute; [discriminate|reflexivity]. }
  split.
  - intros self n bs self'. unfold offset_read.
    destruct (Z.ltb_spec (len (data self)) (pos self + n)); [discriminate|].
    intros [= _ <-]. simpl. lia.
  - intros self k n Hn Hover. unfold offset_read, skip; simpl.
    destruct (Z.ltb_spec (len (data self)) (pos self + k + n)); [|lia].
    reflexivity.
Qed.

(** A skip of 16 in a two-byte buffer, then a read of nothing. *)
Lemma skip_is_unchecked_witness :
  offset_read 0 None (skip 16 (new_DataBlock [x00; x01])) = Raise out_of_bounds.
Proof.
  destruct skip_is_unchecked as (_ & _ & _ & Hread).
  apply (Hread (new_DataBlock [x00; x01]) 16 0); [lia | vm_compute; reflexivity].
Defined.

(** ** Properties of the metadata store *)

Lemma bind_Ok {A B} (m : result A) (k : A -> result B) (b : B) :
  (x ← m; k x) = Ok b -> exists a, m = Ok a /\ k a = Ok b.
Proof. destruct m as [a|e]; [eauto | discriminate]. Qed.

(** Splits a successful sequence into its successful steps, and drops the
    branches that raise. *)
Ltac unbind :=
  repeat (match goal with
          | H : mbind _ _ = Ok _ |- _ =>
            apply bind_Ok in H; destruct H as (? & ? & H)
          | x : (_ * _)%type |- _ => destruct x
          | H : (if ?c then Raise _ else _) = Ok _ |- _ =>
            destruct c eqn:?; [discriminate H|]
          end; simpl in * ).

Lemma be_uint_snoc bs b : be_uint (bs ++ [b]) = be_uint bs * 256 + byte_val b.
Proof. unfold be_uint. now rewrite fold_left_app. Qed.

Lemma byte_val_range b : 0 <= byte_val b < 256.
Proof.
  unfold byte_val. pose proof (Byte.to_N_bounded b). lia.
Qed.

Lemma be_uint_range bs : 0 <= be_uint bs < 256 ^ len bs.
Proof.
  induction bs as [|b bs IH] using rev_ind; [vm_compute; split; [discriminate|reflexivity]|].
  rewrite be_uint_snoc. unfold len in *. rewrite length_app. simpl length.
  replace (Z.of_nat (length bs + 1)) with (Z.of_nat (length bs) + 1) by lia.
  rewrite Z.pow_add_r by lia. pose proof (byte_val_range b). lia.
Qed.

Lemma unpack_uint_range size bs v :
  unpack_uint size bs = Ok v -> 0 <= v < 256 ^ size.
Proof.
  unfold unpack_uint. destruct (Z.eqb_spec (len bs) size) as [<-|]; [|discriminate].
  intros [= <-]. apply be_uint_range.
Qed.

(** A read that fits, as an equation. *)
Lemma offset_read_fits n o self :
  read_start self o + n <= len (data self) ->
  offset_read n o self =
  Ok (py_slice (data self) (read_start self o) (read_start self o + n),
      match o with
      | None => {| data := data self; pos := pos self + n |}
      | Some _ => self
      end).
Proof.
  intros Hfit. unfold offset_read.
  change (match o with None => pos self | Some o => o end) with (read_start self o).
  destruct (Z.ltb_spec (len (data self)) (read_start self o + n)); [lia | reflexivity].
Qed.

Lemma offset_read_cursor n o self bs self' :
  offset_read n o self = Ok (bs, self') ->
  self' = match o with
          | None => {| data := data self; pos := pos self + n |}
          | Some _ => self
          end.
Proof.
  unfold offset_read. destruct (_ <? _); [discriminate|]. now intros [= _ <-].
Qed.

Lemma offset_read_data n o self bs self' :
  offset_read n o self = Ok (bs, self') -> data self' = data self.
Proof.
  unfold offset_read. destruct (_ <? _); [discriminate|].
  intros [= _ <-]. now destruct o.
Qed.

(** A 32-bit read leaves the buffer alone and returns a 32-bit word. *)
Lemma read_u32_Ok self v self' :
  read_u32 self = Ok (v, self') ->
  data self' = data self /\ pos self' = pos self + 4 /\ 0 <= v < 2 ^ 32.
Proof.
  unfold read_u32. intros H. unbind. injection H as <- <-.
  split; [eauto using offset_read_data|]. split.
  - match goal with Hr : offset_read _ _ _ = _ |- _ =>
      unfold offset_read in Hr; destruct (_ <? _); [discriminate|];
      now injection Hr as _ <-
    end.
  - eapply (unpack_uint_range 4); eassumption.
Qed.

(** What the successful reads in the context say about the buffer. *)
Ltac buffer_facts :=
  repeat match goal with
         | H : offset_read _ _ _ = Ok _ |- _ =>
           apply offset_read_data in H; simpl in H
         | H : read_u32 _ = Ok _ |- _ =>
           apply read_u32_Ok in H; destruct H as (H & _ & ?); simpl in H
         end.

Section RepeatRead.
Context {A : Type} (f : DataBlock -> result (A * DataBlock)).

Lemma repeat_read_data (P : A -> Prop) :
  (forall self x self', f self = Ok (x, self') -> data self' = data self /\ P x) ->
  forall count self xs self',
    repeat_read f count self = Ok (xs, self') ->
    data self' = data self /\ Forall P xs /\ length xs = count.
Proof.
  intros Hf. induction count as [|count IH]; intros self xs self' H; simpl in H.
  - injection H as <- <-. auto.
  - unbind. injection H as <- <-.
    match goal with Hx : f _ = _ |- _ => apply Hf in Hx as [Hd ?] end.
    match goal with Hx : repeat_read _ _ _ = _ |- _ =>
      apply IH in Hx as (Hd' & ? & ?) end.
    simpl. split; [congruence|]. split; [auto | congruence].
Qed.

(** Reading [n + m] items is reading [n] and then [m] from where that
    ended: the items come in reading order. *)
Lemma repeat_read_add n m self :
  repeat_read f (n + m) self =
  '(xs, self) ← repeat_read f n self;
  '(ys, self) ← repeat_read f m self;
  Ok (xs ++ ys, self).
Proof.
  revert self. induction n as [|n IH]; intros self; simpl.
  - destruct (repeat_read f m self) as [[ys s]|]; reflexivity.
  - destruct (f self) as [[x s]|]; [|reflexivity]. simpl.
    rewrite IH. destruct (repeat_read f n s) as [[xs s']|]; [|reflexivity]. simpl.
    destruct (repeat_read f m s') as [[ys s'']|]; reflexivity.
Qed.
End RepeatRead.

Lemma read_toc_entry_data self x self' :
  read_toc_entry self = Ok (x, self') -> data self' = data self /\ True.
Proof.
  unfold read_toc_entry. intros H. unbind. injection H as _ _ <-.
  buffer_facts. split; [congruence | exact I].
Qed.

Lemma _read_header_data d blk hdr blk' :
  _read_header d blk = Ok (hdr, blk') -> data blk' = data blk.
Proof.
  unfold _read_header. intros H. unbind. injection H as _ <-.
  buffer_facts. congruence.
Qed.

(** Steps (a) and (b) of construction: the length guard, the two magic
    words, the two readings of the root offset, the 16 reserved bytes, and
    the root-table buffer carved from the file at [offset + 4]. *)
Lemma _read_header_steps d :
  let magic1 := be_uint (py_slice d 0 4) in
  let magic2 := be_uint (py_slice d 4 8) in
  let offset := be_uint (py_slice d 8 12) in
  let size := be_uint (py_slice d 12 16) in
  let offset2 := be_uint (py_slice d 16 20) in
  _read_header d (new_DataBlock d) =
  if len d <? 36
  then Raise (ParsingError "Data length insufficient for header parsing.")
  else if negb (magic1 =? 0x1) || negb (magic2 =? 0x42756431)
  then Raise (ParsingError "Invalid magic bytes in header.")
  else if negb (offset =? offset2)
  then Raise (ParsingError "Header offset mismatch.")
  else if len d <? offset + 4 + size
  then Raise out_of_bounds
  else Ok (new_DataBlock (py_slice d (offset + 4) (offset + 4 + size)),
           {| data := d; pos := 36 |}).
Proof.
  intros magic1 magic2 offset size offset2. unfold _read_header.
  destruct (Z.ltb_spec (len d) 36) as [|Hlen]; [reflexivity|].
  rewrite (offset_read_fits 8 None (new_DataBlock d)) by (simpl; lia).
  cbn [mbind result_bind read_start new_DataBlock data pos].
  change (0 + 8) with 8.
  assert (len (py_slice d 0 8) = 8) as Hl8
    by (apply (len_py_slice_inside d 0 8); lia).
  unfold unpack_II. rewrite Hl8. simpl (8 =? 8).
  cbv iota. cbn [mbind result_bind].
  rewrite (py_slice_py_slice d 0 8 0 4), (py_slice_py_slice d 0 8 4 8) by lia.
  change (0 + 0) with 0. change (0 + 4) with 4. change (0 + 8) with 8.
  fold magic1 magic2.
  destruct (negb (magic1 =? 1) || negb (magic2 =? 1114989617)); [reflexivity|].
  rewrite (offset_read_fits 12 None) by (simpl; lia).
  cbn [mbind result_bind read_start data pos].
  change (8 + 12) with 20.
  assert (len (py_slice d 8 20) = 12) as Hl12
    by (apply (len_py_slice_inside d 8 12); lia).
  unfold unpack_III. rewrite Hl12. simpl (12 =? 12).
  cbv iota. cbn [mbind result_bind].
  rewrite (py_slice_py_slice d 8 20 0 4), (py_slice_py_slice d 8 20 4 8),
    (py_slice_py_slice d 8 20 8 12) by lia.
  change (8 + 0) with 8. change (8 + 4) with 12. change (8 + 8) with 16.
  change (8 + 12) with 20. fold offset size offset2.
  destruct (negb (offset =? offset2)); [reflexivity|].
  unfold offset_read, skip. simpl.
  destruct (len d <? offset + 4 + size); reflexivity.
Qed.

(** A constructed store reads its blocks from the bytes it was built
    from, and its offset table holds 32-bit words. *)
Lemma new_DS_Store_Ok d self :
  new_DS_Store d = Ok self ->
  ds_data self = d
  /\ data (block self) = d
  /\ Forall (fun a => 0 <= a < 2 ^ 32) (offsets self).
Proof.
  unfold new_DS_Store, _read_offsets, _read_toc. intros H. unbind.
  injection H as <-. simpl.
  match goal with Hh : _read_header _ _ = _ |- _ =>
    apply _read_header_data in Hh; simpl in Hh end.
  repeat match goal with
         | Hr : repeat_read read_u32 _ _ = _ |- _ =>
           apply (repeat_read_data read_u32 (fun a => 0 <= a < 2 ^ 32)) in Hr;
           [destruct Hr as (Hr & ? & _); simpl in Hr
           | intros ? ? ? Hu; apply read_u32_Ok in Hu; tauto]
         | Hr : repeat_read read_toc_entry _ _ = _ |- _ =>
           apply (repeat_read_data read_toc_entry (fun _ => True)) in Hr;
           [destruct Hr as (Hr & _) | apply read_toc_entry_data]
         end.
  buffer_facts.
  repeat split; [congruence | assumption].
Qed.

Lemma chain_store_parsed : new_DS_Store chain_store_bytes = Ok chain_store.
Proof. vm_compute. reflexivity. Qed.

Lemma block_offset_nonneg a : 0 <= a -> 0 <= block_offset a.
Proof. intros Ha. unfold block_offset. apply Z.land_nonneg. now left. Qed.

Lemma block_size_pow2 a : block_size a = 2 ^ Z.land a 0x1F.
Proof.
  unfold block_size. rewrite Z.shiftl_1_l. reflexivity.
Qed.

Lemma low5_range a : 0 <= Z.land a 0x1F < 32.
Proof.
  change 0x1F with (Z.ones 5). rewrite Z.land_ones by lia.
  apply Z.mod_pos_bound. lia.
Qed.

Lemma block_size_pos a : 0 < block_size a.
Proof.
  rewrite block_size_pow2. pose proof (low5_range a). apply Z.pow_pos_nonneg; lia.
Qed.

(** C9.  The pair decoded from an address word [a] is
    [size = 1 << (a & 0x1F)] and [offset = a & ~0x1F], that is
    [2 ^ (a mod 32)] and [a - a mod 32]; and [offset | log2(size)] is [a]
    again. *)
Theorem address_decode_encode (a : Z) :
  block_size a = Z.shiftl 1 (Z.land a 0x1F)
  /\ block_offset a = Z.land a (Z.lnot 0x1F)
  /\ block_size a = 2 ^ (a mod 32)
  /\ block_offset a = a - a mod 32
  /\ encode_address (block_offset a) (block_size a) = a.
Proof.
  assert (Hlow : Z.land a 0x1F = a mod 32).
  { change 0x1F with (Z.ones 5). now rewrite Z.land_ones by lia. }
  assert (Hsplit : Z.lor (Z.land a (Z.lnot 0x1F)) (Z.land a 0x1F) = a).
  { rewrite <- Z.land_lor_distr_r.
    replace (Z.lor (Z.lnot 31) 31) with (-1) by reflexivity.
    apply Z.land_m1_r. }
  assert (Hhigh : Z.land a (Z.lnot 0x1F) = a - a mod 32).
  { rewrite <- Hlow. rewrite <- Hsplit at 2.
    rewrite <- Z.lxor_lor.
    - rewrite <- Z.add_nocarry_lxor.
      + lia.
      + rewrite Z.land_assoc, (Z.land_comm _ a), Z.land_assoc, Z.land_diag.
        rewrite <- Z.land_assoc. replace (Z.land (Z.lnot 31) 31) with 0 by reflexivity.
        apply Z.land_0_r.
    - rewrite Z.land_assoc, (Z.land_comm _ a), Z.land_assoc, Z.land_diag.
      rewrite <- Z.land_assoc. replace (Z.land (Z.lnot 31) 31) with 0 by reflexivity.
      apply Z.land_0_r. }
  split; [reflexivity|]. split; [reflexivity|].
  split; [rewrite block_size_pow2; now rewrite Hlow|].
  split; [exact Hhigh|].
  unfold encode_address. rewrite block_size_pow2.
  rewrite Z.log2_pow2 by apply low5_range.
  exact Hsplit.
Qed.

(** C1, at one store: block 0 of [chain_store] has the address
    word 0x05, so 32 bytes from offset 4.  The code takes them from the
    file, bytes 4..35; in the root-table buffer (the file from byte 36)
    the same range is bytes 40..71 of the file. *)
Lemma block_by_id_reads_the_file :
  new_DS_Store chain_store_bytes = Ok chain_store
  /\ py_index (offsets chain_store) 0 = Ok 0x05
  /\ _block_by_id chain_store 0
     = Ok (new_DataBlock (firstn 32 (skipn 4 chain_store_bytes)))
  /\ block_in_root_table chain_store 0
     = Ok (new_DataBlock (firstn 32 (skipn 40 chain_store_bytes)))
  /\ _block_by_id chain_store 0 <> block_in_root_table chain_store 0.
Proof.
  split; [exact chain_store_parsed|].
  repeat split; try (vm_compute; reflexivity).
  vm_compute. discriminate.
Qed.

(** C1, as the code has it.  In a parsed store, [_block_by_id] fails with
    the invalid-block-id error exactly for an id at or beyond the length of
    the offset table.  For an id inside the table, with [a] its address
    word, the block is the [1 << (a & 0x1F)] bytes from byte
    [(a & ~0x1F) + 4] of the file the store was built from, in a fresh
    cursor at position 0; when the file ends before the end of that range
    the out-of-bounds error is raised instead. *)
Theorem block_by_id_resolution (d : list byte) (self : DS_Store) (block_id : Z) :
  new_DS_Store d = Ok self ->
  (_block_by_id self block_id = Raise invalid_block_id
     <-> len (offsets self) <= block_id)
  /\ (0 <= block_id < len (offsets self) ->
      exists a,
        offsets self !! Z.to_nat block_id = Some a
        /\ let start := Z.land a (Z.lnot 0x1F) + 4 in
           let size := Z.shiftl 1 (Z.land a 0x1F) in
           if len d <? start + size
           then _block_by_id self block_id = Raise out_of_bounds
           else exists bs,
               _block_by_id self block_id = Ok (new_DataBlock bs)
               /\ len bs = size
               /\ bs = firstn (Z.to_nat size) (skipn (Z.to_nat start) d)).
Proof.
  intros Hnew. apply new_DS_Store_Ok in Hnew as (_ & Hdata & Hwords).
  unfold _block_by_id.
  destruct (Z.leb_spec (len (offsets self)) block_id) as [Hout|Hin].
  - split; [tauto | lia].
  - split.
    + split; [|lia]. intros H.
      destruct (py_index (offsets self) block_id) as [a|e] eqn:Hidx; simpl in H.
      * unfold offset_read in H. destruct (_ <? _); discriminate H.
      * unfold invalid_block_id in H. injection H as ->.
        unfold py_index in Hidx. destruct (_ || _); [discriminate Hidx|].
        destruct (_ !! _); discriminate Hidx.
    + intros [Hlo _]. unfold py_index.
      destruct (Z.ltb_spec block_id 0); [lia|].
      destruct (Z.ltb_spec block_id 0); [lia|].
      destruct (Z.leb_spec (len (offsets self)) block_id); [lia|]. simpl.
      destruct (offsets self !! Z.to_nat block_id) as [a|] eqn:Hlook.
      2:{ apply lookup_ge_None in Hlook. unfold len in *. lia. }
      exists a. split; [reflexivity|].
      assert (0 <= a < 2 ^ 32) as Ha.
      { rewrite Forall_forall in Hwords. apply Hwords.
        eapply list_elem_of_lookup_2; eauto. }
      fold (block_offset a) (block_size a). cbv zeta.
      pose proof (block_offset_nonneg a ltac:(lia)) as Hoff.
      pose proof (block_size_pos a) as Hsize.
      destruct (Z.ltb_spec (len d) (block_offset a + 4 + block_size a)) as [Hlt|Hge].
      * cbn [mbind result_bind]. unfold offset_read. rewrite Hdata.
        destruct (Z.ltb_spec (len d) (block_offset a + 4 + block_size a)); [|lia].
        reflexivity.
      * cbn [mbind result_bind].
        rewrite offset_read_fits by (simpl; rewrite Hdata; lia).
        cbn [mbind result_bind read_start]. rewrite Hdata.
        eexists. split; [reflexivity|].
        split; [apply len_py_slice_inside; lia | apply py_slice_inside; lia].
Qed.

(** Blocks 1 and 3 of [chain_store], whose table has three words. *)
Lemma block_by_id_resolution_witness :
  (_block_by_id chain_store 1 = Raise invalid_block_id
     <-> len (offsets chain_store) <= 1)
  /\ _block_by_id chain_store 1
     = Ok (new_DataBlock (firstn 64 (skipn 100 chain_store_bytes)))
  /\ _block_by_id chain_store 3 = Raise invalid_block_id.
Proof.
  split.
  - apply (block_by_id_resolution chain_store_bytes chain_store 1).
    vm_compute. reflexivity.
  - split; vm_compute; reflexivity.
Defined.

Lemma read_node_header_Ok node next_pointer count node' :
  read_node_header node = Ok ((next_pointer, count), node') ->
  0 <= next_pointer /\ 0 <= count.
Proof.
  unfold read_node_header, unpack_II. intros H. unbind.
  destruct (_ =? _); simplify_eq.
  split; apply be_uint_range.
Qed.

(** The comprehension of [traverse] reads the records in their order. *)
Lemma repeat_read_records node count filenames :
  block_records node count filenames ->
  exists node', repeat_read read_filename count node = Ok (filenames, node').
Proof.
  induction 1 as [node|node node' filename count filenames Hread _ [node'' IH]].
  - now exists node.
  - exists node''. simpl. rewrite Hread. simpl. rewrite IH. reflexivity.
Qed.

Lemma records_repeat_read count : forall node filenames node',
  repeat_read read_filename count node = Ok (filenames, node') ->
  block_records node count filenames.
Proof.
  induction count as [|count IH]; intros node filenames node' H; simpl in H.
  - injection H as <- _. constructor.
  - unbind. injection H as <- _. econstructor; eauto.
Qed.

Lemma visit_block_chain self block_id node node' next_pointer count filenames :
  _block_by_id self block_id = Ok node ->
  read_node_header node = Ok ((next_pointer, count), node') ->
  block_records node' (range_len count) filenames ->
  visit_block self block_id = Ok (next_pointer, filenames).
Proof.
  intros Hblock Hhead Hrecs. unfold visit_block.
  rewrite Hblock. simpl. rewrite Hhead. simpl.
  apply repeat_read_records in Hrecs as [node'' ->]. reflexivity.
Qed.

(** C7.  Along a well-formed record chain from [block_id], [traverse]
    returns the filenames of the first block in their order, followed by
    those of the block its forward pointer names, and so on up to the
    block with forward pointer 0: the concatenation of the blocks'
    filenames in chain order.  It does so at every depth that the length
    of the chain fits.  A block with forward pointer 0 and record count 0
    gives the empty list. *)
Theorem traverse_record_chain (self : DS_Store) :
  (forall block_id blocks,
     record_chain self block_id blocks ->
     forall depth, (length blocks <= depth)%nat ->
       traverse depth self block_id = Some (Ok (concat blocks)))
  /\ (forall block_id node node',
        _block_by_id self block_id = Ok node ->
        read_node_header node = Ok ((0, 0), node') ->
        forall depth, traverse (S depth) self block_id = Some (Ok [])).
Proof.
  split.
  - intros block_id blocks Hchain.
    induction Hchain
      as [block_id node node' count filenames Hblock Hhead Hrecs
         |block_id node node' next_pointer count filenames rest
            Hblock Hhead Hnext Hrecs Hrest IH];
      intros [|depth] Hdepth; simpl in Hdepth; try lia; simpl.
    + rewrite (visit_block_chain _ _ _ _ _ _ _ Hblock Hhead Hrecs). simpl.
      now rewrite app_nil_r.
    + rewrite (visit_block_chain _ _ _ _ _ _ _ Hblock Hhead Hrecs).
      apply read_node_header_Ok in Hhead as [Hpos _].
      destruct (Z.ltb_spec 0 next_pointer); [|lia].
      rewrite IH by lia. reflexivity.
  - intros block_id node node' Hblock Hhead depth. simpl.
    rewrite (visit_block_chain _ _ _ _ _ _ [] Hblock Hhead); [reflexivity|].
    constructor.
Qed.

(** The two-block chain of [chain_store], and the empty block. *)
Lemma traverse_record_chain_witness :
  record_chain chain_store 1 [[lit "a"; lit "b.c"]; [lit "d"]]
  /\ traverse 2 chain_store 1 = Some (Ok [lit "a"; lit "b.c"; lit "d"])
  /\ traverse 5 chain_store 1 = Some (Ok [lit "a"; lit "b.c"; lit "d"])
  /\ traverse 1 empty_block_store 1 = Some (Ok []).
Proof.
  assert (Hchain : record_chain chain_store 1 [[lit "a"; lit "b.c"]; [lit "d"]]).
  { eapply chain_link with (next_pointer := 2) (count := 2).
    - vm_compute. reflexivity.
    - vm_compute. reflexivity.
    - discriminate.
    - eapply records_repeat_read. vm_compute. reflexivity.
    - eapply chain_last with (count := 1).
      + vm_compute. reflexivity.
      + vm_compute. reflexivity.
      + eapply records_repeat_read. vm_compute. reflexivity. }
  split; [exact Hchain|].
  destruct (traverse_record_chain chain_store) as [Hcat _].
  destruct (traverse_record_chain empty_block_store) as [_ Hempty].
  split; [apply (Hcat 1 _ Hchain); simpl; lia|].
  split; [apply (Hcat 1 _ Hchain); simpl; lia|].
  eapply (Hempty 1); vm_compute; reflexivity.
Defined.

Lemma looping_store_parsed : new_DS_Store looping_store_bytes = Ok looping_store.
Proof. vm_compute. reflexivity. Qed.

Lemma empty_block_store_parsed :
  new_DS_Store empty_block_store_bytes = Ok empty_block_store.
Proof. vm_compute. reflexivity. Qed.

(** A block that names itself as its continuation is visited again at
    every depth. *)
Lemma traverse_self_loop self block_id filenames :
  0 < block_id ->
  visit_block self block_id = Ok (block_id, filenames) ->
  forall depth, traverse depth self block_id = None.
Proof.
  intros Hpos Hvisit. induction depth as [|depth IH]; [reflexivity|].
  simpl. rewrite Hvisit. destruct (Z.ltb_spec 0 block_id); [|lia].
  now rewrite IH.
Qed.

(** Whatever the root offset in the header, the code reads the offset
    table and the table of contents from byte 36 of the file on. *)
Lemma tables_start_at_byte_36 d self :
  new_DS_Store d = Ok self ->
  exists blk,
    _read_offsets {| data := d; pos := 36 |} = Ok (offsets self, blk)
    /\ _read_toc blk = Ok (toc self, block self).
Proof.
  unfold new_DS_Store. intros H. unbind. simplify_eq/=.
  match goal with Hh : _read_header _ _ = Ok (_, ?b) |- _ =>
    assert (b = {| data := d; pos := 36 |}) as ->
  end.
  { unfold _read_header in *. unbind.
    repeat match goal with
           | Hr : offset_read _ _ _ = Ok _ |- _ =>
             apply offset_read_cursor in Hr; simpl in Hr
           end.
    simplify_eq/=. reflexivity. }
  eexists. split; eassumption.
Qed.

(** C2, at a store whose root table is not at byte 36.  The header of
    [displaced_root_bytes] is valid and puts the root table at byte 64,
    where it holds one address word and the entry [DSDB -> 0]:
    construction carves that buffer and keeps it in [self.header], but
    reads the tables from the file cursor it left at byte 36, where the
    bytes are zero.  The store it builds has no address word and no
    table-of-contents entry. *)
Theorem tables_not_read_from_root_table :
  exists self,
    new_DS_Store displaced_root_bytes = Ok self
    /\ header self = new_DataBlock (skipn 64 displaced_root_bytes)
    /\ offsets self = []
    /\ toc self = ∅
    /\ pos (block self) = 48
    /\ tables_in_root_table displaced_root_bytes
       = Ok ([0x05], {[ lit "DSDB" := 0 ]}).
Proof.
  eexists. split; [vm_compute; reflexivity|].
  repeat split; vm_compute; reflexivity.
Qed.

(** ** Properties of the staging index *)

Arguments Gin.mmap_read : simpl never.

Lemma byte_val_inj a b : byte_val a = byte_val b -> a = b.
Proof.
  unfold byte_val. intros H. apply N2Z.inj in H.
  pose proof (Byte.of_to_N a) as Ha. rewrite H, Byte.of_to_N in Ha. congruence.
Qed.

Lemma map_byte_val_inj (xs ys : list byte) :
  map byte_val xs = map byte_val ys -> xs = ys.
Proof.
  revert ys. induction xs as [|x xs IH]; intros [|y ys] H; simplify_eq/=; [done|].
  f_equal; [now apply byte_val_inj | now apply IH].
Qed.

Lemma decode_ascii_Ok bs :
  Forall (fun b => byte_val b < 0x80) bs -> decode_ascii bs = Ok (map byte_val bs).
Proof.
  induction 1 as [|b bs Hb _ IH]; [reflexivity|]. simpl.
  destruct (Z.ltb_spec (byte_val b) 128); [|lia]. now rewrite IH.
Qed.

(** [f.read(n)] returns what is there: the next [n] bytes, or those up to
    the end of the file. *)
Lemma mmap_read_eq n f :
  0 <= n -> 0 <= Gin.fpos f ->
  Gin.mmap_read n f =
  (firstn (Z.to_nat n) (skipn (Z.to_nat (Gin.fpos f)) (Gin.buf f)),
   {| Gin.buf := Gin.buf f;
      Gin.fpos := Gin.fpos f
                  + len (firstn (Z.to_nat n) (skipn (Z.to_nat (Gin.fpos f)) (Gin.buf f))) |}).
Proof.
  intros Hn Hpos. unfold Gin.mmap_read.
  destruct (Z.ltb_spec n 0); [lia|].
  now rewrite py_slice_clipped by lia.
Qed.

Lemma len_take_drop {A} (l : list A) (n p : Z) :
  0 <= n -> 0 <= p -> p <= len l ->
  len (firstn (Z.to_nat n) (skipn (Z.to_nat p) l)) = Z.min n (len l - p).
Proof.
  intros. unfold len in *. rewrite length_take, length_drop. lia.
Qed.

(** C3, at two files: on the signature "DIRD" and on version 4
    the run ends with [SystemExit(1)] after one line on stderr; no
    [ParsingError] reaches the caller. *)
Lemma bad_header_is_not_a_parsing_error :
  Gin.parse_file 1 bad_signature_index
  = Some (Gin.mkRun [] ["[ERROR] Not a Git index file."%string]
            (Gin.Raised (SystemExit 1)))
  /\ Gin.parse_file 1 bad_version_index
     = Some (Gin.mkRun [] ["[ERROR] Unsupported version: 4"%string]
               (Gin.Raised (SystemExit 1)))
  /\ ~ (exists msg r,
          Gin.parse_file 1 bad_signature_index = Some r
          /\ Gin.ended r = Gin.Raised (ParsingError msg))
  /\ ~ (exists msg r,
          Gin.parse_file 1 bad_version_index = Some r
          /\ Gin.ended r = Gin.Raised (ParsingError msg)).
Proof.
  split; [vm_compute; reflexivity|].
  split; [vm_compute; reflexivity|].
  split; intros (msg & r & Hrun & Hend); vm_compute in Hrun;
    simplify_eq/=.
Qed.

(** C3, as the code has it.  A non-empty file whose first four bytes are
    ASCII and are not "DIRC" makes the decoder write "Not a Git index
    file." to stderr and leave through [sys.exit(1)]; a file that begins
    with "DIRC" and a 32-bit version other than 2 and 3 makes it write
    "Unsupported version: v" and leave the same way.  Nothing is yielded
    before, and [parse_file] passes the [SystemExit] on: it ends the
    process. *)
Theorem bad_header_exits (fuel : nat) (content : list byte) :
  content <> [] ->
  (firstn 4 content <> DIRC ->
   Forall (fun b => byte_val b < 0x80) (firstn 4 content) ->
   Gin.parse_file fuel content
   = Some (Gin.mkRun [] ["[ERROR] Not a Git index file."%string]
             (Gin.Raised (SystemExit 1))))
  /\ (firstn 4 content = DIRC ->
      8 <= len content ->
      let v := be_uint (firstn 4 (skipn 4 content)) in
      v <> 2 -> v <> 3 ->
      Gin.parse_file fuel content
      = Some (Gin.mkRun []
                [String.append "[ERROR] Unsupported version: " (Gin.str_of_int v)]
                (Gin.Raised (SystemExit 1)))).
Proof.
  intros Hne.
  assert (Hlen : (len content =? 0) = false).
  { apply Z.eqb_neq. unfold len. destruct content; [done | simpl; lia]. }
  unfold Gin.parse_file, Gin.parse. rewrite Hlen.
  unfold Gin.parse_header. rewrite mmap_read_eq by (simpl; lia). simpl Gin.fpos.
  simpl Gin.buf. change (Z.to_nat 0) with 0%nat. rewrite drop_0.
  change (Z.to_nat 4) with 4%nat.
  split.
  - intros Hsig Hascii. rewrite decode_ascii_Ok by assumption.
    assert (pystr_eqb (map byte_val (firstn 4 content)) (lit "DIRC") = false) as ->.
    { unfold pystr_eqb. apply bool_decide_eq_false. intros Heq.
      apply Hsig. apply map_byte_val_inj. exact Heq. }
    reflexivity.
  - intros Hsig Hlong Hv2 Hv3.
    set (v := be_uint (firstn 4 (skipn 4 content))) in *. rewrite Hsig.
    change (decode_ascii DIRC) with (Ok (lit "DIRC")). cbv iota beta.
    change (pystr_eqb (lit "DIRC") (lit "DIRC")) with true.
    change (Gin.check true "Not a Git index file.") with (@nil string, @Ok unit tt).
    cbv iota beta.
    change (len DIRC) with 4. change (0 + 4) with 4.
    unfold Gin.read at 1. rewrite mmap_read_eq by (simpl; lia).
    simpl Gin.fpos. simpl Gin.buf.
    change (Z.to_nat 4) with 4%nat. fold v.
    assert (len (firstn 4 (skipn 4 content)) = 4) as Hfour.
    { pose proof (len_take_drop content 4 4) as Hl.
      change (Z.to_nat 4) with 4%nat in Hl. lia. }
    unfold unpack_uint. rewrite Hfour. simpl (4 =? 4). cbn [mbind result_bind].
    fold v.
    destruct (Z.eqb_spec v 2); [lia|]. destruct (Z.eqb_spec v 3); [lia|].
    reflexivity.
Qed.

(** The signature "DIRD", and the version 4. *)
Lemma bad_header_exits_witness :
  Gin.parse_file 7 bad_signature_index
  = Some (Gin.mkRun [] ["[ERROR] Not a Git index file."%string]
            (Gin.Raised (SystemExit 1)))
  /\ Gin.parse_file 7 bad_version_index
     = Some (Gin.mkRun [] ["[ERROR] Unsupported version: 4"%string]
               (Gin.Raised (SystemExit 1))).
Proof.
  split.
  - apply (bad_header_exits 7 bad_signature_index); [discriminate| |].
    + vm_compute. discriminate.
    + vm_compute. repeat constructor.
  - apply (bad_header_exits 7 bad_version_index); [discriminate | reflexivity | | |];
      vm_compute; discriminate.
Defined.

Lemma drop_succ {A} (l : list A) (n : nat) b r :
  skipn n l = b :: r -> skipn (S n) l = r.
Proof.
  revert l. induction n as [|n IH]; intros [|x l] H; simpl in *; simplify_eq; auto.
Qed.

(** One iteration of the name loop away from the end of the file. *)
Lemma mmap_read_next_byte f b r :
  0 <= Gin.fpos f ->
  skipn (Z.to_nat (Gin.fpos f)) (Gin.buf f) = b :: r ->
  Gin.mmap_read 1 f = ([b], {| Gin.buf := Gin.buf f; Gin.fpos := Gin.fpos f + 1 |})
  /\ skipn (Z.to_nat (Gin.fpos f + 1)) (Gin.buf f) = r.
Proof.
  intros Hpos Hrest. rewrite mmap_read_eq by lia. rewrite Hrest. split; [reflexivity|].
  replace (Z.to_nat (Gin.fpos f + 1)) with (S (Z.to_nat (Gin.fpos f))) by lia.
  eapply drop_succ; eauto.
Qed.

(** At the end of the file [f.read(1)] returns the empty byte string and
    stays where it is. *)
Lemma mmap_read_at_end f :
  0 <= Gin.fpos f ->
  skipn (Z.to_nat (Gin.fpos f)) (Gin.buf f) = [] ->
  Gin.mmap_read 1 f = ([], {| Gin.buf := Gin.buf f; Gin.fpos := Gin.fpos f + 0 |}).
Proof.
  intros Hpos Hrest. rewrite mmap_read_eq by lia. now rewrite Hrest.
Qed.

Lemma read_name_loop_S fuel f acc :
  Gin.read_name_loop (S fuel) f acc =
  (let '(byte, f) := Gin.mmap_read 1 f in
   if bool_decide (byte = [x00]) then Some (acc, f)
   else Gin.read_name_loop fuel f (acc ++ [byte])).
Proof. reflexivity. Qed.

(** With a zero byte ahead, the loop collects the bytes before it, one
    per iteration, and stops behind it. *)
Lemma read_name_loop_terminator name : forall tail f acc fuel,
  0 <= Gin.fpos f ->
  skipn (Z.to_nat (Gin.fpos f)) (Gin.buf f) = name ++ x00 :: tail ->
  x00 ∉ name ->
  (length name < fuel)%nat ->
  Gin.read_name_loop fuel f acc
  = Some (acc ++ map (fun b => [b]) name,
          {| Gin.buf := Gin.buf f; Gin.fpos := Gin.fpos f + len name + 1 |}).
Proof.
  induction name as [|b name IH]; intros tail f acc [|fuel] Hpos Hrest Hzero Hfuel;
    simpl in Hfuel; try lia; rewrite read_name_loop_S.
  - destruct (mmap_read_next_byte f x00 tail Hpos Hrest) as [-> _].
    rewrite bool_decide_eq_true_2 by reflexivity.
    rewrite app_nil_r. do 3 f_equal. unfold len. simpl. lia.
  - destruct (mmap_read_next_byte f b (name ++ x00 :: tail) Hpos Hrest) as [-> Hnext].
    rewrite bool_decide_eq_false_2.
    2:{ intros [= ->]. apply Hzero. left. }
    rewrite (IH tail) by (simpl; try lia; try assumption; set_solver).
    simpl. rewrite <- app_assoc. simpl. do 3 f_equal.
    unfold len. simpl length. lia.
Qed.

(** Without a zero byte ahead, the loop is still running after any number
    of iterations: at the end of the file every read returns the empty
    byte string, which is not the terminator. *)
Lemma read_name_loop_runs_on fuel : forall f acc,
  0 <= Gin.fpos f ->
  x00 ∉ skipn (Z.to_nat (Gin.fpos f)) (Gin.buf f) ->
  Gin.read_name_loop fuel f acc = None.
Proof.
  induction fuel as [|fuel IH]; intros f acc Hpos Hzero; [reflexivity|].
  rewrite read_name_loop_S. destruct (skipn (Z.to_nat (Gin.fpos f)) (Gin.buf f)) as [|b r] eqn:Hrest.
  - rewrite (mmap_read_at_end f Hpos Hrest).
    rewrite bool_decide_eq_false_2 by discriminate.
    apply IH; simpl; [lia|].
    replace (Z.to_nat (Gin.fpos f + 0)) with (Z.to_nat (Gin.fpos f)) by lia.
    rewrite Hrest. set_solver.
  - destruct (mmap_read_next_byte f b r Hpos Hrest) as [-> Hnext].
    rewrite bool_decide_eq_false_2.
    2:{ intros [= ->]. apply Hzero. left. }
    apply IH; simpl; [lia|]. rewrite Hnext. set_solver.
Qed.

Lemma concat_singletons {A} (l : list A) : concat (map (fun b => [b]) l) = l.
Proof. induction l as [|x l IH]; simpl; congruence. Qed.

Lemma name_length_range flags : 0 <= Z.land flags 0xFFF <= 0xFFF.
Proof.
  change 0xFFF with (Z.ones 12) at 1 2. rewrite Z.land_ones by lia.
  pose proof (Z.mod_pos_bound flags (2 ^ 12) ltac:(lia)).
  change (2 ^ 12) with 4096 in *. lia.
Qed.

(** C8, at one file: the entry of [short_name_index] has flags 5
    and three bytes behind them; its name is those three bytes. *)
Lemma short_name_is_shorter :
  Z.land 5 0xFFF = 5
  /\ Gin.read_name_bytes 1 {| Gin.buf := short_name_index; Gin.fpos := 74 |} 5
     = Some ([x61; x62; x63], {| Gin.buf := short_name_index; Gin.fpos := 77 |})
  /\ exists e,
      Gin.parse 1 short_name_index
      = Some (Gin.mkRun
                [Gin.IHeader (Gin.mkHeader (lit "DIRC") 2 1);
                 Gin.IEntry e;
                 Gin.IChecksum (Gin.mkChecksum true [])]
                [] Gin.Finished)
      /\ Gin.flags e = 5
      /\ Gin.name e = lit "abc"
      /\ len (Gin.name e) <> Z.land (Gin.flags e) 0xFFF.
Proof.
  split; [reflexivity|]. split; [vm_compute; reflexivity|].
  eexists. split; [vm_compute; reflexivity|].
  repeat split. vm_compute. discriminate.
Qed.

(** C8, as the code has it.  The name length is the low 12 bits of the
    flags.  Below 0xFFF, the name is decoded from the next that many
    bytes, or from all the bytes left when the file has fewer; the
    position moves behind them.  At 0xFFF, when a zero byte lies ahead,
    the name is decoded from the bytes before the first one, and the
    position moves behind that zero byte.  In both cases the decoding is
    UTF-8 with replacement. *)
Theorem read_name_by_flags (f : Gin.Mmap) (flags : Z) :
  0 <= Gin.fpos f <= len (Gin.buf f) ->
  let namelen := Z.land flags 0xFFF in
  let rest := skipn (Z.to_nat (Gin.fpos f)) (Gin.buf f) in
  0 <= namelen <= 0xFFF
  /\ (namelen < 0xFFF ->
      forall fuel,
        Gin._read_name fuel f flags
        = Some (decode_utf8_replace (firstn (Z.to_nat namelen) rest),
                {| Gin.buf := Gin.buf f;
                   Gin.fpos := Gin.fpos f + Z.min namelen (len rest) |})
        /\ len (firstn (Z.to_nat namelen) rest) = Z.min namelen (len rest))
  /\ (namelen = 0xFFF ->
      forall raw tail fuel,
        rest = raw ++ x00 :: tail ->
        x00 ∉ raw ->
        (length raw < fuel)%nat ->
        Gin._read_name fuel f flags
        = Some (decode_utf8_replace raw,
                {| Gin.buf := Gin.buf f; Gin.fpos := Gin.fpos f + len raw + 1 |})).
Proof.
  intros Hpos namelen rest. pose proof (name_length_range flags) as Hrange.
  fold namelen in Hrange. split; [exact Hrange|]. split.
  - intros Hshort fuel. unfold Gin._read_name, Gin.read_name_bytes. fold namelen.
    destruct (Z.ltb_spec namelen 4095); [|lia].
    rewrite mmap_read_eq by lia. fold rest.
    assert (len (firstn (Z.to_nat namelen) rest) = Z.min namelen (len rest)) as Hlen.
    { unfold len. rewrite length_take. lia. }
    rewrite Hlen. split; reflexivity.
  - intros Hlong raw tail fuel Hrest Hzero Hfuel.
    unfold Gin._read_name, Gin.read_name_bytes. fold namelen.
    destruct (Z.ltb_spec namelen 4095); [lia|].
    rewrite (read_name_loop_terminator raw tail) by (try assumption; lia).
    simpl. now rewrite concat_singletons.
Qed.

(** A five-byte name by its length, and a name by its terminator. *)
Lemma read_name_by_flags_witness :
  Gin._read_name 0 {| Gin.buf := full_name_index; Gin.fpos := 74 |} 5
  = Some (lit "a.txt", {| Gin.buf := full_name_index; Gin.fpos := 79 |})
  /\ Gin._read_name 4 {| Gin.buf := terminated_name_index; Gin.fpos := 74 |} 0x0FFF
     = Some (lit "abc", {| Gin.buf := terminated_name_index; Gin.fpos := 78 |}).
Proof.
  pose proof (read_name_by_flags {| Gin.buf := full_name_index; Gin.fpos := 74 |} 5
                ltac:(vm_compute; split; discriminate)) as (_ & Hshort & _).
  pose proof (read_name_by_flags {| Gin.buf := terminated_name_index; Gin.fpos := 74 |}
                0x0FFF ltac:(vm_compute; split; discriminate)) as (_ & _ & Hlong).
  split.
  - destruct (Hshort ltac:(vm_compute; reflexivity) 0%nat) as [-> _].
    vm_compute. reflexivity.
  - rewrite (Hlong ltac:(reflexivity) [x61; x62; x63]
               (firstn 20 (skipn 78 terminated_name_index)) 4%nat).
    + vm_compute. reflexivity.
    + vm_compute. reflexivity.
    + intros Hin. repeat (apply elem_of_cons in Hin as [Hin|Hin]; [discriminate|]).
      now apply elem_of_nil in Hin.
    + simpl. lia.
Defined.

(** Decides that a byte is not in an explicit list. *)
Ltac not_in_bytes :=
  let Hin := fresh "Hin" in
  intros Hin; vm_compute in Hin;
  repeat (apply elem_of_cons in Hin as [Hin|Hin]; [discriminate Hin|]);
  now apply elem_of_nil in Hin.

(** A name with length field 0xFFF and no zero byte up to the end of the
    file is never read to its end. *)
Lemma read_name_runs_on f flags :
  0 <= Gin.fpos f ->
  Z.land flags 0xFFF = 0xFFF ->
  x00 ∉ skipn (Z.to_nat (Gin.fpos f)) (Gin.buf f) ->
  forall fuel, Gin._read_name fuel f flags = None.
Proof.
  intros Hpos Hlen Hzero fuel. unfold Gin._read_name, Gin.read_name_bytes.
  rewrite Hlen. change (4095 <? 4095) with false. cbv iota.
  now rewrite read_name_loop_runs_on.
Qed.

(** C4, at two inputs.  The entry of [unterminated_name_index] has the
    name length 0xFFF and no zero byte behind its flags: the run of the
    decoder is still in the loop of [_read_name] after any number of
    iterations.  Block 1 of [looping_store] has the forward pointer 1:
    [traverse] is still recursing at any depth. *)
Theorem decode_runs_on :
  (forall fuel, Gin.parse fuel unterminated_name_index = None)
  /\ new_DS_Store looping_store_bytes = Ok looping_store
  /\ visit_block looping_store 1 = Ok (1, [])
  /\ (forall depth, traverse depth looping_store 1 = None).
Proof.
  split.
  - intros fuel. unfold Gin.parse.
    change (len unterminated_name_index =? 0) with false. cbv iota.
    assert (Gin.parse_header {| Gin.buf := unterminated_name_index; Gin.fpos := 0 |}
            = ([], Ok (Gin.mkHeader (lit "DIRC") 2 1,
                       {| Gin.buf := unterminated_name_index; Gin.fpos := 12 |}))) as ->
      by (vm_compute; reflexivity).
    cbv iota beta zeta. simpl Gin.entries. change (Z.to_nat 1) with 1%nat.
    cbn [Gin.parse_entries]. unfold Gin._parse_entry.
    destruct (Gin.read_entry_fields _ _) as [[[mk fl] f1]|e] eqn:Hfields.
    2:{ vm_compute in Hfields. discriminate Hfields. }
    assert (fl = 0x0FFF /\ f1 = {| Gin.buf := unterminated_name_index; Gin.fpos := 74 |})
      as [-> ->].
    { vm_compute in Hfields. injection Hfields as _ <- <-. split; reflexivity. }
    rewrite read_name_runs_on; [reflexivity | simpl; lia | reflexivity |].
    not_in_bytes.
  - split; [exact looping_store_parsed|].
    assert (Hvisit : visit_block looping_store 1 = Ok (1, []))
      by (vm_compute; reflexivity).
    split; [exact Hvisit|].
    apply (traverse_self_loop looping_store 1 []); [lia | exact Hvisit].
Qed.

Lemma parse_extensions_S fuel f :
  Gin.parse_extensions (S fuel) f =
  if Gin.fpos f <? len (Gin.buf f) - 20 then
    match Gin._parse_extension f with
    | Raise e => Some ([], Raise e)
    | Ok (x, f') =>
      match Gin.parse_extensions fuel f' with
      | Some (items, r) => Some (Gin.IExtension x :: items, r)
      | None => None
      end
    end
  else Some ([], Ok f).
Proof. reflexivity. Qed.

(** An extension read with its 8 header bytes in the file: it takes the
    header and then the payload, [size] bytes or what the file still has. *)
Lemma _parse_extension_Ok f x f' :
  0 <= Gin.fpos f -> 8 <= remaining f ->
  Gin._parse_extension f = Ok (x, f') ->
  Gin.buf f' = Gin.buf f
  /\ 0 <= Gin.ext_size x
  /\ Gin.fpos f' = Z.min (Gin.fpos f + 8 + Gin.ext_size x) (len (Gin.buf f)).
Proof.
  unfold remaining. intros Hpos Hrem. unfold Gin._parse_extension.
  rewrite mmap_read_eq by lia.
  rewrite (len_take_drop (Gin.buf f) 4 (Gin.fpos f)) by lia.
  rewrite Z.min_l by lia.
  intros H. unbind. unfold Gin.read in *.
  rewrite mmap_read_eq in * by (simpl; lia). simpl in *.
  rewrite (len_take_drop (Gin.buf f) 4 (Gin.fpos f + 4)) in * by lia.
  rewrite Z.min_l in * by lia. unbind. simplify_eq/=.
  match goal with Hu : unpack_uint 4 _ = Ok ?v |- _ =>
    apply unpack_uint_range in Hu; rename Hu into Hsize
  end.
  split; [reflexivity|]. split; [lia|].
  match goal with |- context [?v <? 0] => destruct (Z.ltb_spec v 0); [lia|] end.
  rewrite len_py_slice_clipped by lia. lia.
Qed.

(** The extension loop ends: every iteration takes at least the 8 header
    bytes, and the loop stops with fewer than 21 bytes left. *)
Lemma parse_extensions_ends fuel : forall f,
  0 <= Gin.fpos f <= len (Gin.buf f) ->
  remaining f < Z.of_nat fuel ->
  exists items r,
    Gin.parse_extensions fuel f = Some (items, r)
    /\ forall f', r = Ok f' -> remaining f' < 21.
Proof.
  induction fuel as [|fuel IH]; intros f Hpos Hfuel; unfold remaining in *; [lia|].
  rewrite parse_extensions_S.
  destruct (Z.ltb_spec (Gin.fpos f) (len (Gin.buf f) - 20)) as [Hmore|Hstop].
  - destruct (Gin._parse_extension f) as [[x f']|e] eqn:Hext.
    + apply _parse_extension_Ok in Hext as (Hbuf & Hsize & Hnew);
        [|lia|unfold remaining; lia].
      destruct (IH f') as (items & r & -> & Hend);
        [rewrite Hbuf; lia | unfold remaining; rewrite Hbuf; lia|].
      eauto.
    + eexists _, _. split; [reflexivity|]. discriminate.
  - eexists _, _. split; [reflexivity|]. intros f' [= <-]. unfold remaining. lia.
Qed.

(** C5, at one file: in [tight_extension_index] 21 bytes follow
    the header, so the loop runs; the extension read takes bytes 12..19,
    and the final 20 bytes of the file begin at byte 13.  The checksum is
    then read from the 13 bytes that are left. *)
Lemma extension_read_enters_checksum :
  remaining tight_extension_cursor = 21
  /\ len (Gin.buf tight_extension_cursor) - 20 = 13
  /\ Gin._parse_extension tight_extension_cursor
     = Ok (Gin.mkExtension (lit "TREE") 0 [],
           {| Gin.buf := tight_extension_index; Gin.fpos := 20 |})
  /\ ~ (forall x f',
          Gin._parse_extension tight_extension_cursor = Ok (x, f') ->
          Gin.fpos f' <= len (Gin.buf tight_extension_cursor) - 20)
  /\ Gin.parse 2 tight_extension_index
     = Some (Gin.mkRun
               [Gin.IHeader (Gin.mkHeader (lit "DIRC") 2 0);
                Gin.IExtension (Gin.mkExtension (lit "TREE") 0 []);
                Gin.IChecksum
                  (Gin.mkChecksum true
                     (Gin.hexlify (skipn 20 tight_extension_index)))]
               [] Gin.Finished).
Proof.
  split; [reflexivity|]. split; [reflexivity|].
  assert (Hext : Gin._parse_extension tight_extension_cursor
                 = Ok (Gin.mkExtension (lit "TREE") 0 [],
                       {| Gin.buf := tight_extension_index; Gin.fpos := 20 |}))
    by (vm_compute; reflexivity).
  split; [exact Hext|]. split.
  - intros Hbound. specialize (Hbound _ _ Hext). vm_compute in Hbound.
    now apply Hbound.
  - vm_compute. reflexivity.
Qed.

(** C5, as the code has it.  With fewer than 21 bytes left the loop stops
    without reading; with at least 21 it reads one extension and goes on
    from where that read ended.  Such a read takes the 8 header bytes and
    then [size] payload bytes, or the bytes up to the end of the file when
    there are fewer: it ends before the final 20 bytes exactly when
    position + 8 + size does.  The loop ends, with fewer than 21 bytes
    left, once the iterations allowed exceed the bytes left at its
    start. *)
Theorem extension_loop_guard (f : Gin.Mmap) :
  0 <= Gin.fpos f <= len (Gin.buf f) ->
  (remaining f < 21 ->
   forall fuel, Gin.parse_extensions (S fuel) f = Some ([], Ok f))
  /\ (21 <= remaining f ->
      forall fuel,
        Gin.parse_extensions (S fuel) f =
        match Gin._parse_extension f with
        | Raise e => Some ([], Raise e)
        | Ok (x, f') =>
          match Gin.parse_extensions fuel f' with
          | Some (items, r) => Some (Gin.IExtension x :: items, r)
          | None => None
          end
        end)
  /\ (21 <= remaining f ->
      forall x f',
        Gin._parse_extension f = Ok (x, f') ->
        Gin.buf f' = Gin.buf f
        /\ Gin.fpos f' = Z.min (Gin.fpos f + 8 + Gin.ext_size x) (len (Gin.buf f))
        /\ (Gin.fpos f' <= len (Gin.buf f) - 20
            <-> Gin.fpos f + 8 + Gin.ext_size x <= len (Gin.buf f) - 20))
  /\ (forall fuel,
        remaining f < Z.of_nat fuel ->
        exists items r,
          Gin.parse_extensions fuel f = Some (items, r)
          /\ forall f', r = Ok f' -> remaining f' < 21).
Proof.
  intros Hpos. unfold remaining in *.
  split; [|split; [|split]].
  - intros Hfew fuel. rewrite parse_extensions_S.
    destruct (Z.ltb_spec (Gin.fpos f) (len (Gin.buf f) - 20)); [lia | reflexivity].
  - intros Hmany fuel. rewrite parse_extensions_S.
    destruct (Z.ltb_spec (Gin.fpos f) (len (Gin.buf f) - 20)); [reflexivity | lia].
  - intros Hmany x f' Hext.
    apply _parse_extension_Ok in Hext as (Hbuf & Hsize & Hnew);
      [|lia|unfold remaining; lia].
    split; [exact Hbuf|]. split; [exact Hnew|]. lia.
  - intros fuel Hfuel. apply parse_extensions_ends; [exact Hpos | exact Hfuel].
Qed.

(** One extension that ends where the final 20 bytes begin. *)
Lemma extension_loop_guard_witness :
  Gin.parse_extensions 2 fitting_extension_cursor
  = Some ([Gin.IExtension (Gin.mkExtension (lit "TREE") 3 (lit "xyz"))],
          Ok {| Gin.buf := fitting_extension_index; Gin.fpos := 23 |})
  /\ Gin.fpos fitting_extension_cursor + 8 + 3
     <= len (Gin.buf fitting_extension_cursor) - 20.
Proof.
  destruct (extension_loop_guard fitting_extension_cursor
              ltac:(vm_compute; split; discriminate))
    as (_ & Hstep & _ & _).
  split.
  - rewrite (Hstep ltac:(vm_compute; discriminate) 1%nat). vm_compute. reflexivity.
  - vm_compute. discriminate.
Defined.

(** ** Further properties of the metadata store *)

(** A sequential read that succeeded: what it returned and where it left
    the cursor. *)
Lemma offset_read_seq_Ok n self bs self' :
  offset_read n None self = Ok (bs, self') ->
  bs = py_slice (data self) (pos self) (pos self + n)
  /\ self' = {| data := data self; pos := pos self + n |}
  /\ pos self + n <= len (data self).
Proof.
  unfold offset_read.
  destruct (Z.ltb_spec (len (data self)) (pos self + n)); [discriminate|].
  intros [= <- <-]. auto.
Qed.

(** [read_u32] as an equation. *)
Lemma read_u32_eq self :
  0 <= pos self ->
  read_u32 self =
  if len (data self) <? pos self + 4 then Raise out_of_bounds
  else Ok (word_at (data self) (pos self),
           {| data := data self; pos := pos self + 4 |}).
Proof.
  intros Hpos. unfold read_u32, offset_read.
  destruct (Z.ltb_spec (len (data self)) (pos self + 4)); [reflexivity|].
  cbn [mbind result_bind]. unfold unpack_uint.
  rewrite len_py_slice_inside by lia. reflexivity.
Qed.

Lemma words_at_S d p n :
  words_at d p (S n) = word_at d p :: words_at d (p + 4) n.
Proof.
  unfold words_at. simpl seq. simpl map. f_equal.
  - f_equal. lia.
  - rewrite <- seq_shift, map_map. apply map_ext. intros i. f_equal. lia.
Qed.

Lemma length_words_at d p n : length (words_at d p n) = n.
Proof. unfold words_at. now rewrite length_map, length_seq. Qed.

(** [count] words read in a row: all of them are there, or the read
    that runs over the end raises. *)
Lemma repeat_read_u32_eq count : forall self,
  0 <= pos self ->
  repeat_read read_u32 count self =
  if (0 <? Z.of_nat count) && (len (data self) <? pos self + 4 * Z.of_nat count)
  then Raise out_of_bounds
  else Ok (words_at (data self) (pos self) count,
           {| data := data self;
              pos := pos self + 4 * Z.of_nat count |}).
Proof.
  induction count as [|count IH]; intros self Hpos.
  - simpl. destruct self as [d p]. simpl. do 3 f_equal. lia.
  - cbn [repeat_read]. rewrite read_u32_eq by assumption.
    destruct (Z.ltb_spec 0 (Z.of_nat (S count))); [|lia]. cbn [andb].
    destruct (Z.ltb_spec (len (data self)) (pos self + 4)) as [Hshort|Hfits].
    + destruct (Z.ltb_spec (len (data self)) (pos self + 4 * Z.of_nat (S count)));
        [reflexivity | lia].
    + cbn [mbind result_bind]. rewrite IH by (simpl; lia). simpl data. simpl pos.
      destruct (Z.ltb_spec 0 (Z.of_nat count)) as [Hmore|Hnone]; cbn [andb].
      * destruct (Z.ltb_spec (len (data self)) (pos self + 4 + 4 * Z.of_nat count));
          destruct (Z.ltb_spec (len (data self)) (pos self + 4 * Z.of_nat (S count)));
          try lia; [reflexivity|].
        cbn [mbind result_bind]. rewrite words_at_S. do 3 f_equal. lia.
      * destruct (Z.ltb_spec (len (data self)) (pos self + 4 * Z.of_nat (S count)));
          [lia|].
        cbn [mbind result_bind]. rewrite words_at_S. do 3 f_equal. lia.
Qed.

(** [_read_offsets] as an equation: the count, four bytes that are not
    looked at, and the address words. *)
Lemma _read_offsets_eq blk :
  0 <= pos blk ->
  _read_offsets blk =
  let count := word_at (data blk) (pos blk) in
  if (len (data blk) <? pos blk + 4)
     || ((0 <? count) && (len (data blk) <? pos blk + 8 + 4 * count))
  then Raise out_of_bounds
  else Ok (words_at (data blk) (pos blk + 8) (Z.to_nat count),
           {| data := data blk; pos := pos blk + 8 + 4 * count |}).
Proof.
  intros Hpos. unfold _read_offsets. rewrite read_u32_eq by assumption.
  destruct (Z.ltb_spec (len (data blk)) (pos blk + 4)); [reflexivity|].
  cbn [mbind result_bind orb]. unfold range_len, skip. cbv zeta.
  assert (0 <= word_at (data blk) (pos blk)) as Hcount
    by (unfold word_at; apply be_uint_range).
  rewrite repeat_read_u32_eq by (simpl; lia). simpl data. simpl pos.
  rewrite Z2Nat.id by assumption.
  replace (pos blk + 4 + 4 + 4 * word_at (data blk) (pos blk))
    with (pos blk + 8 + 4 * word_at (data blk) (pos blk)) by lia.
  replace (pos blk + 4 + 4) with (pos blk + 8) by lia.
  reflexivity.
Qed.

Lemma repeat_read_inv {A} (f : DataBlock -> result (A * DataBlock))
    (Q : DataBlock -> Prop) :
  (forall self x self', Q self -> f self = Ok (x, self') -> Q self') ->
  forall count self xs self',
    Q self -> repeat_read f count self = Ok (xs, self') -> Q self'.
Proof.
  intros Hf. induction count as [|count IH]; intros self xs self' HQ H; simpl in H.
  - now injection H as _ <-.
  - unbind. injection H as _ <-. eauto.
Qed.

(** A table-of-contents entry takes at least five bytes and ends inside
    the buffer. *)
Lemma read_toc_entry_Ok blk x blk' :
  0 <= pos blk ->
  read_toc_entry blk = Ok (x, blk') ->
  data blk' = data blk /\ pos blk + 5 <= pos blk' <= len (data blk').
Proof.
  intros Hpos. unfold read_toc_entry. intros H. unbind.
  repeat match goal with
         | Hr : offset_read _ None _ = Ok _ |- _ =>
           apply offset_read_seq_Ok in Hr; destruct Hr as (-> & -> & ?); simpl in *
         | Hu : unpack_uint _ _ = Ok _ |- _ => apply unpack_uint_range in Hu
         end.
  match goal with Hr : read_u32 _ = Ok _ |- _ =>
    rewrite read_u32_eq in Hr by (simpl; lia); simpl in Hr;
    match type of Hr with context [?a <? ?b] =>
      destruct (Z.ltb_spec a b); [discriminate Hr|]
    end
  end.
  simplify_eq/=. split; [reflexivity | lia].
Qed.

(** X1.  Construction refuses a file in this order: fewer than 36 bytes;
    then a first or second 32-bit word that is not 0x00000001 or
    0x42756431; then two readings of the root offset (words at bytes 8 and
    16) that differ; then a root table (root size at byte 12) that would
    end behind the file, although the table is not read from there. *)
Theorem construction_rejects (d : list byte) :
  (len d < 36 ->
   new_DS_Store d
   = Raise (ParsingError "Data length insufficient for header parsing."))
  /\ (36 <= len d ->
      word_at d 0 <> 0x1 \/ word_at d 4 <> 0x42756431 ->
      new_DS_Store d = Raise (ParsingError "Invalid magic bytes in header."))
  /\ (36 <= len d ->
      word_at d 0 = 0x1 -> word_at d 4 = 0x42756431 ->
      word_at d 8 <> word_at d 16 ->
      new_DS_Store d = Raise (ParsingError "Header offset mismatch."))
  /\ (36 <= len d ->
      word_at d 0 = 0x1 -> word_at d 4 = 0x42756431 ->
      word_at d 8 = word_at d 16 ->
      len d < word_at d 8 + 4 + word_at d 12 ->
      new_DS_Store d = Raise out_of_bounds).
Proof.
  unfold new_DS_Store. pose proof (_read_header_steps d) as Hh. cbv zeta in Hh.
  change (be_uint (py_slice d 0 4)) with (word_at d 0) in Hh.
  change (be_uint (py_slice d 4 8)) with (word_at d 4) in Hh.
  change (be_uint (py_slice d 8 12)) with (word_at d 8) in Hh.
  change (be_uint (py_slice d 12 16)) with (word_at d 12) in Hh.
  change (be_uint (py_slice d 16 20)) with (word_at d 16) in Hh.
  rewrite Hh. clear Hh.
  repeat split.
  - intros Hshort. destruct (Z.ltb_spec (len d) 36); [reflexivity | lia].
  - intros Hlong Hmagic. destruct (Z.ltb_spec (len d) 36); [lia|].
    destruct (Z.eqb_spec (word_at d 0) 1), (Z.eqb_spec (word_at d 4) 1114989617);
      try reflexivity.
    lia.
  - intros Hlong -> -> Hdiff. destruct (Z.ltb_spec (len d) 36); [lia|].
    simpl. destruct (Z.eqb_spec (word_at d 8) (word_at d 16)); [lia | reflexivity].
  - intros Hlong -> -> Hsame Hover. destruct (Z.ltb_spec (len d) 36); [lia|].
    simpl. rewrite Hsame, Z.eqb_refl. simpl. rewrite <- Hsame.
    destruct (Z.ltb_spec (len d) (word_at d 8 + 4 + word_at d 12)); [reflexivity | lia].
Qed.

(** Files refused at each of the four checks: 20 bytes; a first byte 01;
    a second offset reading 0x21 against 0x20; a file cut at byte 100 whose
    root table would end at byte 196. *)
Lemma construction_rejects_witness :
  new_DS_Store (firstn 20 chain_store_bytes)
  = Raise (ParsingError "Data length insufficient for header parsing.")
  /\ new_DS_Store (x01 :: skipn 1 chain_store_bytes)
     = Raise (ParsingError "Invalid magic bytes in header.")
  /\ new_DS_Store (firstn 19 chain_store_bytes ++ x21 :: skipn 20 chain_store_bytes)
     = Raise (ParsingError "Header offset mismatch.")
  /\ new_DS_Store (firstn 100 chain_store_bytes) = Raise out_of_bounds.
Proof.
  split; [|split; [|split]].
  - apply (construction_rejects (firstn 20 chain_store_bytes)).
    vm_compute. reflexivity.
  - apply (construction_rejects (x01 :: skipn 1 chain_store_bytes)).
    + vm_compute. discriminate.
    + left. vm_compute. discriminate.
  - apply (construction_rejects
             (firstn 19 chain_store_bytes ++ x21 :: skipn 20 chain_store_bytes)).
    + vm_compute. discriminate.
    + vm_compute. reflexivity.
    + vm_compute. reflexivity.
    + vm_compute. discriminate.
  - apply (construction_rejects (firstn 100 chain_store_bytes)).
    + vm_compute. discriminate.
    + vm_compute. reflexivity.
    + vm_compute. reflexivity.
    + vm_compute. reflexivity.
    + vm_compute. reflexivity.
Defined.

(** The parts of a successful construction. *)
Lemma new_DS_Store_parts d self :
  new_DS_Store d = Ok self ->
  36 <= len d
  /\ word_at d 8 + 4 + word_at d 12 <= len d
  /\ ds_data self = d
  /\ header self
     = new_DataBlock (py_slice d (word_at d 8 + 4) (word_at d 8 + 4 + word_at d 12))
  /\ exists blk,
      _read_offsets {| data := d; pos := 36 |} = Ok (offsets self, blk)
      /\ _read_toc blk = Ok (toc self, block self).
Proof.
  unfold new_DS_Store. pose proof (_read_header_steps d) as Hh. cbv zeta in Hh.
  change (be_uint (py_slice d 8 12)) with (word_at d 8) in Hh.
  change (be_uint (py_slice d 12 16)) with (word_at d 12) in Hh.
  rewrite Hh. clear Hh. intros H.
  destruct (Z.ltb_spec (len d) 36); [cbn [mbind result_bind] in H; discriminate H|].
  destruct (_ || _); [cbn [mbind result_bind] in H; discriminate H|].
  destruct (negb _); [cbn [mbind result_bind] in H; discriminate H|].
  destruct (Z.ltb_spec (len d) (word_at d 8 + 4 + word_at d 12)); [cbn [mbind result_bind] in H; discriminate H|].
  cbn [mbind result_bind] in H. unbind. simplify_eq/=.
  repeat split; try assumption; try reflexivity. eauto.
Qed.

(** X2.  The offset table of a constructed store is read from a fixed
    place in the file: its length is the 32-bit word at byte 36, its
    entries are the consecutive 32-bit words from byte 44 on (bytes 40..43
    are passed over), and a non-empty table lies within the file. *)
Theorem offset_table_words (d : list byte) (self : DS_Store) :
  new_DS_Store d = Ok self ->
  len (offsets self) = word_at d 36
  /\ offsets self = words_at d 44 (Z.to_nat (word_at d 36))
  /\ (forall i, 0 <= i < word_at d 36 ->
        offsets self !! Z.to_nat i = Some (word_at d (44 + 4 * i)))
  /\ (0 < word_at d 36 -> 44 + 4 * word_at d 36 <= len d).
Proof.
  intros Hnew. apply new_DS_Store_parts in Hnew as (Hlen & _ & _ & _ & blk & Hoffs & _).
  rewrite _read_offsets_eq in Hoffs by (simpl; lia). simpl in Hoffs.
  change (36 + 4) with 40 in Hoffs. change (36 + 8) with 44 in Hoffs.
  assert (0 <= word_at d 36) as Hcount by (unfold word_at; apply be_uint_range).
  destruct (Z.ltb_spec (len d) 40); [discriminate Hoffs|]. simpl in Hoffs.
  destruct (Z.ltb_spec 0 (word_at d 36)) as [Hsome|Hnone]; simpl in Hoffs.
  - destruct (Z.ltb_spec (len d) (44 + 4 * word_at d 36)); [discriminate Hoffs|].
    injection Hoffs as <- _.
    split; [unfold len; rewrite length_words_at; lia|].
    split; [reflexivity|]. split; [|lia].
    intros i Hi. unfold words_at. rewrite list_lookup_fmap.
    rewrite lookup_seq_lt by lia. simpl. do 2 f_equal. lia.
  - injection Hoffs as <- _.
    split; [unfold len; rewrite length_words_at; lia|].
    split; [reflexivity|]. split; [intros; lia | lia].
Qed.

(** The table of three words of [chain_store_bytes]. *)
Lemma offset_table_words_witness :
  len (offsets chain_store) = word_at chain_store_bytes 36
  /\ offsets chain_store = words_at chain_store_bytes 44 3
  /\ offsets chain_store !! 1%nat = Some 0x66.
Proof.
  destruct (offset_table_words chain_store_bytes chain_store chain_store_parsed)
    as (Hlen & Hwords & Hlook & _).
  split; [exact Hlen|]. split; [exact Hwords|].
  apply (Hlook 1). vm_compute. split; [discriminate | reflexivity].
Defined.

(** X3.  In a constructed store the file cursor has stopped inside the
    file, behind the offset table and the count of the table of contents
    (at byte 48 + 4 * the number of address words at the earliest); the
    cursor reads the bytes the store was built from; and the root-table
    buffer kept in [self.header] is a fresh cursor over exactly root-size
    bytes (word at byte 12) of the file from byte root-offset + 4 (word at
    byte 8). *)
Theorem constructed_store_cursor (d : list byte) (self : DS_Store) :
  new_DS_Store d = Ok self ->
  ds_data self = d
  /\ data (block self) = d
  /\ 48 + 4 * len (offsets self) <= pos (block self) <= len d
  /\ pos (header self) = 0
  /\ len (data (header self)) = word_at d 12
  /\ data (header self)
     = firstn (Z.to_nat (word_at d 12)) (skipn (Z.to_nat (word_at d 8 + 4)) d).
Proof.
  intros Hnew.
  pose proof (new_DS_Store_parts d self Hnew) as (_ & _ & Hd & _).
  split; [exact Hd|]. clear Hd.
  apply new_DS_Store_parts in Hnew as (Hlen & Hroot & _ & Hhdr & blk & Hoffs & Htoc).
  assert (0 <= word_at d 8) as Hw8 by (unfold word_at; apply be_uint_range).
  assert (0 <= word_at d 12) as Hw12 by (unfold word_at; apply be_uint_range).
  assert (0 <= word_at d 36) as Hw36 by (unfold word_at; apply be_uint_range).
  rewrite _read_offsets_eq in Hoffs by (simpl; lia). simpl in Hoffs.
  change (36 + 8) with 44 in Hoffs.
  destruct (_ || _); [discriminate Hoffs|]. injection Hoffs as Hwords <-.
  assert (len (offsets self) = word_at d 36) as Hcount.
  { rewrite <- Hwords. unfold len. rewrite length_words_at. lia. }
  clear Hwords.
  unfold _read_toc in Htoc. unbind. simplify_eq/=.
  match goal with Hr : read_u32 _ = Ok _ |- _ =>
    rewrite read_u32_eq in Hr by (simpl; lia); simpl in Hr;
    match type of Hr with context [?a <? ?b] =>
      destruct (Z.ltb_spec a b); [discriminate Hr|]
    end; injection Hr as _ <-
  end.
  match goal with Hr : repeat_read read_toc_entry _ _ = Ok _ |- _ =>
    apply (repeat_read_inv read_toc_entry
             (fun b => data b = d /\ 48 + 4 * word_at d 36 <= pos b <= len d)) in Hr;
      [destruct Hr as (Hdata & Hpos) | | simpl; split; [reflexivity | lia]]
  end.
  2:{ intros b x b' [Hb Hp] Hr. apply read_toc_entry_Ok in Hr; [|lia].
      destruct Hr as (Hb' & Hp'). rewrite Hb', Hb in *. split; [reflexivity | lia]. }
  rewrite Hhdr, Hcount. simpl.
  split; [exact Hdata|]. split; [exact Hpos|].
  split; [reflexivity|].
  split; [apply len_py_slice_inside; lia | apply py_slice_inside; lia].
Qed.

(** The cursor of [chain_store]: at byte 69 of 196. *)
Lemma constructed_store_cursor_witness :
  48 + 4 * len (offsets chain_store) <= pos (block chain_store) <= len chain_store_bytes
  /\ len (data (header chain_store)) = 160.
Proof.
  destruct (constructed_store_cursor chain_store_bytes chain_store chain_store_parsed)
    as (_ & _ & Hpos & _ & Hroot & _).
  split; [exact Hpos | exact Hroot].
Defined.

(** X4.  A negative block id is not refused as invalid: Python's indexing
    counts it from the end of the offset table, so an id from [-len] to
    [-1] resolves the same block as that id plus the table length, and an
    id below [-len] raises [IndexError], not the parsing error. *)
Theorem negative_block_id (self : DS_Store) (block_id : Z) :
  block_id < 0 ->
  (- len (offsets self) <= block_id ->
   _block_by_id self block_id = _block_by_id self (len (offsets self) + block_id))
  /\ (block_id < - len (offsets self) ->
      _block_by_id self block_id = Raise IndexError).
Proof.
  intros Hneg. pose proof (len_nonneg (offsets self)) as Hlen.
  unfold _block_by_id.
  destruct (Z.leb_spec (len (offsets self)) block_id); [lia|].
  unfold py_index. cbv zeta. destruct (Z.ltb_spec block_id 0); [|lia].
  cbv iota. split.
  - intros Hin.
    assert ((len (offsets self) <=? len (offsets self) + block_id) = false) as Hle
      by (apply Z.leb_gt; lia).
    assert ((len (offsets self) + block_id <? 0) = false) as Hlt
      by (apply Z.ltb_ge; lia).
    repeat (progress (rewrite ?Hle, ?Hlt; cbv iota)). reflexivity.
  - intros Hout.
    destruct (Z.ltb_spec (len (offsets self) + block_id) 0); [|lia].
    reflexivity.
Qed.

(** In [chain_store], with three address words: -1 is block 2, and -4 is
    outside. *)
Lemma negative_block_id_witness :
  _block_by_id chain_store (-1) = _block_by_id chain_store 2
  /\ _block_by_id chain_store (-4) = Raise IndexError.
Proof.
  split.
  - apply (negative_block_id chain_store (-1)); [lia | vm_compute; discriminate].
  - apply (negative_block_id chain_store (-4)); [lia | vm_compute; reflexivity].
Defined.

(** A filename record that was read, by its parts. *)
Lemma read_filename_Ok (self : DataBlock) (filename : pystr)
    (self' : DataBlock) :
  0 <= pos self ->
  read_filename self = Ok (filename, self') ->
  let d := data self in
  let p := pos self in
  let n := word_at d p in
  exists structure_type,
    decode_utf16be (py_slice d (p + 4) (p + 4 + 2 * n)) = Ok filename
    /\ decode (py_slice d (p + 8 + 2 * n) (p + 12 + 2 * n)) = Ok structure_type
    /\ p + 12 + 2 * n <= len d
    /\ data self' = d
    /\ pos self' = p + 12 + 2 * n + trailing_bytes d (p + 12 + 2 * n) structure_type.
Proof.
  intros Hpos H d p n. unfold read_filename in H.
  apply bind_Ok in H as ([n0 s1] & Hn & H).
  rewrite read_u32_eq in Hn by assumption.
  destruct (Z.ltb_spec (len (data self)) (pos self + 4)); [discriminate Hn|].
  injection Hn as <- <-. fold d p n in H.
  assert (0 <= n) as Hn by (unfold n, word_at; apply be_uint_range).
  apply bind_Ok in H as ([name s2] & Hname & H).
  unfold read_string in Hname.
  apply bind_Ok in Hname as ([raw s2'] & Hraw & Hname).
  apply offset_read_seq_Ok in Hraw as (-> & -> & Hfit1). simpl in Hfit1, Hname.
  apply bind_Ok in Hname as (name' & Hdec & Hname). injection Hname as -> <-.
  apply bind_Ok in H as ([sid s3] & Hsid & H).
  rewrite read_u32_eq in Hsid by (simpl; lia). simpl in Hsid.
  match type of Hsid with context [?a <? ?b] =>
    destruct (Z.ltb_spec a b); [discriminate Hsid|] end.
  injection Hsid as _ <-.
  apply bind_Ok in H as ([tag s4] & Htag & H).
  unfold read_structure_type in Htag.
  apply bind_Ok in Htag as ([tb s4'] & Htb & Htag).
  apply offset_read_seq_Ok in Htb as (-> & -> & Hfit2). simpl in Hfit2, Htag.
  apply bind_Ok in Htag as (tag' & Htagdec & Htag). injection Htag as -> <-.
  apply bind_Ok in H as ([k s5] & Hskip & H). injection H as <- <-.
  exists tag.
  replace (p + 4 + 2 * n) with (p + 4 + n * 2) by lia.
  split; [exact Hdec|].
  replace (p + 8 + 2 * n) with (p + 4 + n * 2 + 4) by lia.
  replace (p + 12 + 2 * n) with (p + 4 + n * 2 + 4 + 4) by lia.
  split; [exact Htagdec|]. split; [lia|].
  unfold _calculate_skip_length in Hskip. unfold trailing_bytes.
  destruct (pystr_eqb tag (lit "bool")); [injection Hskip as <- <-; simpl; auto|].
  destruct (pystr_eqb tag (lit "long")); [injection Hskip as <- <-; simpl; auto|].
  destruct (pystr_eqb tag (lit "blob")); [|injection Hskip as <- <-; simpl; split; [reflexivity | lia]].
  rewrite read_u32_eq in Hskip by (simpl; lia). simpl in Hskip.
  match type of Hskip with context [?a <? ?b] =>
    destruct (Z.ltb_spec a b); [discriminate Hskip|] end.
  injection Hskip as <- <-. simpl. split; [reflexivity | fold d; lia].
Qed.

(** X5.  The layout of a filename record that [read_filename] accepts at
    position [p]: a 32-bit count [n], [2 * n] bytes of UTF-16BE text (the
    filename), four bytes that are not looked at, and a four-byte
    structure type; these [12 + 2 * n] bytes lie inside the buffer.  The
    cursor then moves on by 1 for "bool", by 4 for "long", by four plus
    the 32-bit length that follows for "blob", and not at all for any
    other type; this last move is not checked against the buffer
    length. *)
Theorem read_filename_layout (self : DataBlock) (filename : pystr)
    (self' : DataBlock) :
  0 <= pos self ->
  read_filename self = Ok (filename, self') ->
  let d := data self in
  let p := pos self in
  let n := word_at d p in
  exists structure_type,
    decode_utf16be (py_slice d (p + 4) (p + 4 + 2 * n)) = Ok filename
    /\ decode (py_slice d (p + 8 + 2 * n) (p + 12 + 2 * n)) = Ok structure_type
    /\ p + 12 + 2 * n <= len d
    /\ data self' = d
    /\ pos self' = p + 12 + 2 * n + trailing_bytes d (p + 12 + 2 * n) structure_type.
Proof. exact (read_filename_Ok self filename self'). Qed.

(** The first record of block 1 of [chain_store], and a record whose
    trailing byte is missing: it is accepted, and the cursor is left one
    byte behind the end. *)
Lemma read_filename_layout_witness :
  (exists structure_type,
     decode (py_slice (data dangling_record) 10 14) = Ok structure_type
     /\ pos (skip 1 {| data := data dangling_record; pos := 14 |})
        = 14 + trailing_bytes (data dangling_record) 14 structure_type)
  /\ read_filename dangling_record
     = Ok (lit "a", {| data := data dangling_record; pos := 15 |})
  /\ len (data dangling_record) = 14.
Proof.
  assert (Hread : read_filename dangling_record
                  = Ok (lit "a", {| data := data dangling_record; pos := 15 |}))
    by (vm_compute; reflexivity).
  split; [|split; [exact Hread | reflexivity]].
  destruct (read_filename_layout dangling_record _ _ ltac:(simpl; lia) Hread)
    as (tag & _ & Htag & _ & _ & Hpos).
  exists tag. split; [exact Htag|]. exact Hpos.
Defined.

(** What a visited block consists of. *)
Lemma visit_block_Ok self block_id next_pointer filenames :
  visit_block self block_id = Ok (next_pointer, filenames) ->
  exists node node' count,
    _block_by_id self block_id = Ok node
    /\ read_node_header node = Ok ((next_pointer, count), node')
    /\ block_records node' (range_len count) filenames.
Proof.
  unfold visit_block. intros H.
  apply bind_Ok in H as (node & Hnode & H).
  apply bind_Ok in H as ([[next count] node'] & Hhead & H).
  apply bind_Ok in H as ([fs node''] & Hrecs & H). injection H as -> ->.
  exists node, node', count. split; [exact Hnode|]. split; [exact Hhead|].
  eapply records_repeat_read; eauto.
Qed.

(** X6.  [traverse] returns a list of filenames only along a well-formed
    record chain: when it returns at some depth, the blocks reached from
    [block_id] by the forward pointers form such a chain, no longer than
    that depth, and the list is the concatenation of their filenames. *)
Theorem traverse_only_chains (self : DS_Store) (depth : nat) :
  forall block_id filenames,
    traverse depth self block_id = Some (Ok filenames) ->
    exists blocks,
      record_chain self block_id blocks
      /\ concat blocks = filenames
      /\ (length blocks <= depth)%nat.
Proof.
  induction depth as [|depth IH]; intros block_id filenames H; [discriminate H|].
  simpl in H.
  destruct (visit_block self block_id) as [[next fs]|e] eqn:Hvisit; [|discriminate H].
  apply visit_block_Ok in Hvisit as (node & node' & count & Hnode & Hhead & Hrecs).
  destruct (Z.ltb_spec 0 next) as [Hmore|Hlast].
  - destruct (traverse depth self next) as [[more|e]|] eqn:Hrest; try discriminate H.
    injection H as <-. apply IH in Hrest as (blocks & Hchain & <- & Hlen).
    exists (fs :: blocks). split; [|split; [reflexivity | simpl; lia]].
    eapply chain_link; eauto. lia.
  - injection H as <-. exists [fs].
    split; [|split; [simpl; apply app_nil_r | simpl; lia]].
    pose proof (read_node_header_Ok _ _ _ _ Hhead) as [Hpos _].
    assert (next = 0) as -> by lia.
    eapply chain_last; eauto.
Qed.

(** The chain behind the three filenames of [chain_store]. *)
Lemma traverse_only_chains_witness :
  exists blocks,
    record_chain chain_store 1 blocks
    /\ concat blocks = [lit "a"; lit "b.c"; lit "d"]
    /\ (length blocks <= 2)%nat.
Proof.
  apply (traverse_only_chains chain_store 2 1). vm_compute. reflexivity.
Defined.







(** ** Further properties of the staging index *)

Lemma decode_ascii_eq bs :
  decode_ascii bs = if is_ascii bs then Ok (map byte_val bs) else Raise UnicodeDecodeError.
Proof.
  induction bs as [|b bs IH]; [reflexivity|]. simpl.
  destruct (byte_val b <? 128); [|reflexivity]. rewrite IH.
  now destruct (is_ascii bs).
Qed.

Lemma pystr_eqb_bytes (xs ys : list byte) :
  pystr_eqb (map byte_val xs) (map byte_val ys) = bool_decide (xs = ys).
Proof.
  unfold pystr_eqb. apply bool_decide_ext. split; [apply map_byte_val_inj | congruence].
Qed.

(** [f.read(n)] on the sliced buffer. *)
Lemma mmap_read_slice n f :
  0 <= n ->
  Gin.mmap_read n f =
  (py_slice (Gin.buf f) (Gin.fpos f) (Gin.fpos f + n),
   {| Gin.buf := Gin.buf f;
      Gin.fpos := Gin.fpos f + len (py_slice (Gin.buf f) (Gin.fpos f) (Gin.fpos f + n)) |}).
Proof.
  intros Hn. unfold Gin.mmap_read. destruct (Z.ltb_spec n 0); [lia | reflexivity].
Qed.

(** The local [read] of [parse]: the field when its bytes are there,
    [struct.error] when the file ends before. *)
Lemma read_eq size f :
  0 < size -> 0 <= Gin.fpos f ->
  Gin.read size f =
  if Gin.fpos f + size <=? len (Gin.buf f)
  then Ok (be_uint (py_slice (Gin.buf f) (Gin.fpos f) (Gin.fpos f + size)),
           {| Gin.buf := Gin.buf f; Gin.fpos := Gin.fpos f + size |})
  else Raise StructError.
Proof.
  intros Hsize Hpos. unfold Gin.read. rewrite mmap_read_slice by lia.
  unfold unpack_uint. rewrite len_py_slice_clipped by lia.
  destruct (Z.leb_spec (Gin.fpos f + size) (len (Gin.buf f))).
  - rewrite Z.max_r, Z.min_l by lia. rewrite Z.eqb_refl. reflexivity.
  - destruct (Z.eqb_spec (Z.max 0 (Z.min size (len (Gin.buf f) - Gin.fpos f))) size);
      [lia | reflexivity].
Qed.

(** [parse_header] on a fresh cursor, as an equation. *)
Lemma parse_header_eq (content : list byte) :
  Gin.parse_header {| Gin.buf := content; Gin.fpos := 0 |} =
  if negb (is_ascii (firstn 4 content))
  then ([], Raise UnicodeDecodeError)
  else if negb (bool_decide (firstn 4 content = DIRC))
  then (["[ERROR] Not a Git index file."%string], Raise (SystemExit 1))
  else if len content <? 8
  then ([], Raise StructError)
  else if negb ((word_at content 4 =? 2) || (word_at content 4 =? 3))
  then ([String.append "[ERROR] Unsupported version: "
                       (Gin.str_of_int (word_at content 4))],
        Raise (SystemExit 1))
  else if len content <? 12
  then ([], Raise StructError)
  else ([], Ok (Gin.mkHeader (lit "DIRC") (word_at content 4) (word_at content 8),
                {| Gin.buf := content; Gin.fpos := 12 |})).
Proof.
  unfold Gin.parse_header. rewrite mmap_read_slice by lia. simpl Gin.buf. simpl Gin.fpos.
  rewrite (py_slice_clipped content 0 4) by lia.
  change (Z.to_nat 0) with 0%nat. change (Z.to_nat 4) with 4%nat. rewrite drop_0.
  rewrite decode_ascii_eq.
  destruct (is_ascii (firstn 4 content)); [|reflexivity]. cbn [negb].
  change (lit "DIRC") with (map byte_val DIRC). rewrite pystr_eqb_bytes.
  destruct (bool_decide_reflect (firstn 4 content = DIRC)) as [Hsig|]; [|reflexivity].
  cbn [negb Gin.check]. rewrite Hsig. change (0 + len DIRC) with 4.
  rewrite read_eq by (simpl; lia). simpl Gin.buf. simpl Gin.fpos.
  change (4 + 4) with 8.
  destruct (Z.leb_spec 8 (len content)), (Z.ltb_spec (len content) 8); try lia;
    [|reflexivity].
  change (be_uint (py_slice content 4 8)) with (word_at content 4).
  unfold Gin.check.
  destruct ((word_at content 4 =? 2) || (word_at content 4 =? 3)); [|reflexivity].
  cbn [negb]. rewrite read_eq by (simpl; lia). simpl Gin.buf. simpl Gin.fpos.
  change (8 + 4) with 12.
  destruct (Z.leb_spec 12 (len content)), (Z.ltb_spec (len content) 12); try lia;
    reflexivity.
Qed.

(** X9.  The header of a staging index is accepted or refused in this
    order: a byte above 0x7F among the first four ends the run with
    [UnicodeDecodeError]; a signature other than "DIRC" with the exit of
    [Logger.check]; a file of fewer than 8 bytes with [struct.error]; a
    version other than 2 and 3 with the exit of [Logger.check]; a file of
    fewer than 12 bytes with [struct.error]; every other file gives the
    header record, with the entry count read from bytes 8..11, and leaves
    the cursor at byte 12. *)
Theorem parse_header_table (content : list byte) :
  Gin.parse_header {| Gin.buf := content; Gin.fpos := 0 |} =
  if negb (is_ascii (firstn 4 content))
  then ([], Raise UnicodeDecodeError)
  else if negb (bool_decide (firstn 4 content = DIRC))
  then (["[ERROR] Not a Git index file."%string], Raise (SystemExit 1))
  else if len content <? 8
  then ([], Raise StructError)
  else if negb ((word_at content 4 =? 2) || (word_at content 4 =? 3))
  then ([String.append "[ERROR] Unsupported version: "
                       (Gin.str_of_int (word_at content 4))],
        Raise (SystemExit 1))
  else if len content <? 12
  then ([], Raise StructError)
  else ([], Ok (Gin.mkHeader (lit "DIRC") (word_at content 4) (word_at content 8),
                {| Gin.buf := content; Gin.fpos := 12 |})).
Proof. exact (parse_header_eq content). Qed.

(** One field read of an entry: done when its bytes are there, and the
    whole entry ends with [struct.error] when they are not. *)
Ltac entry_field :=
  rewrite read_eq by (simpl; lia); simpl Gin.buf; simpl Gin.fpos;
  match goal with
  | |- context [?a <=? ?b] =>
    destruct (Z.leb_spec a b); [cbn [mbind result_bind]|]
  end.

(** [read_entry_fields] as an equation. *)
Lemma read_entry_fields_eq (f : Gin.Mmap) (entry_number : Z) :
  0 <= Gin.fpos f ->
  let b := Gin.buf f in
  let p := Gin.fpos f in
  (remaining f < 62 -> Gin.read_entry_fields f entry_number = Raise StructError)
  /\ (62 <= remaining f ->
      Gin.read_entry_fields f entry_number
      = Ok (Gin.mkEntry entry_number
              (word_at b p) (word_at b (p + 4)) (word_at b (p + 8))
              (word_at b (p + 12)) (word_at b (p + 16)) (word_at b (p + 20))
              (Gin.format_06o (word_at b (p + 24)))
              (word_at b (p + 28)) (word_at b (p + 32)) (word_at b (p + 36))
              (Gin.hexlify (py_slice b (p + 40) (p + 60)))
              (be_uint (py_slice b (p + 60) (p + 62))),
            be_uint (py_slice b (p + 60) (p + 62)),
            {| Gin.buf := b; Gin.fpos := p + 62 |})).
Proof.
  intros Hpos b p. subst b p. unfold remaining.
  destruct f as [b p]. simpl in *.
  assert (0 <= len b) as Hlen by apply len_nonneg.
  unfold Gin.read_entry_fields.
  do 10 (entry_field; [|split; [reflexivity | lia]]).
  rewrite mmap_read_slice by lia. simpl Gin.buf. simpl Gin.fpos.
  rewrite len_py_slice_clipped by lia. cbv beta iota zeta.
  rewrite read_eq by (simpl; lia). simpl Gin.buf. simpl Gin.fpos.
  match goal with
  | |- context [?x <=? ?y] => destruct (Z.leb_spec x y)
  end; cbn [mbind result_bind].
  - split; [lia|]. intros Hroom.
    rewrite Z.max_r, Z.min_l by lia.
    replace (p + 4 + 4 + 4 + 4 + 4 + 4 + 4 + 4 + 4 + 4) with (p + 40) by lia.
    replace (p + 40 + 20) with (p + 60) by lia.
    replace (p + 60 + 2) with (p + 62) by lia.
    unfold word_at.
    replace (p + 4 + 4) with (p + 8) by lia.
    replace (p + 8 + 4) with (p + 12) by lia.
    replace (p + 12 + 4) with (p + 16) by lia.
    replace (p + 16 + 4) with (p + 20) by lia.
    replace (p + 20 + 4) with (p + 24) by lia.
    replace (p + 24 + 4) with (p + 28) by lia.
    replace (p + 28 + 4) with (p + 32) by lia.
    replace (p + 32 + 4) with (p + 36) by lia.
    replace (p + 36 + 4) with (p + 40) by lia.
    reflexivity.
  - split; [reflexivity | lia].
Qed.

(** X10.  The fixed part of an entry is 62 bytes: ten 32-bit fields, the
    20-byte hash and the 16-bit flags.  With 62 bytes left in the file
    [_parse_entry] reads them from these places and leaves the cursor 62
    bytes on; with fewer left it ends with [struct.error], also when only
    the hash is cut short. *)
Theorem entry_fields_need_62_bytes (f : Gin.Mmap) (entry_number : Z) :
  0 <= Gin.fpos f ->
  let b := Gin.buf f in
  let p := Gin.fpos f in
  (remaining f < 62 -> Gin.read_entry_fields f entry_number = Raise StructError)
  /\ (62 <= remaining f ->
      Gin.read_entry_fields f entry_number
      = Ok (Gin.mkEntry entry_number
              (word_at b p) (word_at b (p + 4)) (word_at b (p + 8))
              (word_at b (p + 12)) (word_at b (p + 16)) (word_at b (p + 20))
              (Gin.format_06o (word_at b (p + 24)))
              (word_at b (p + 28)) (word_at b (p + 32)) (word_at b (p + 36))
              (Gin.hexlify (py_slice b (p + 40) (p + 60)))
              (be_uint (py_slice b (p + 60) (p + 62))),
            be_uint (py_slice b (p + 60) (p + 62)),
            {| Gin.buf := b; Gin.fpos := p + 62 |})).
Proof. exact (read_entry_fields_eq f entry_number). Qed.

(** The entry of [full_name_index], at byte 12, and the same file cut
    inside the hash. *)
Lemma entry_fields_need_62_bytes_witness :
  Gin.read_entry_fields {| Gin.buf := firstn 60 full_name_index; Gin.fpos := 12 |} 1
  = Raise StructError
  /\ exists mk,
      Gin.read_entry_fields {| Gin.buf := full_name_index; Gin.fpos := 12 |} 1
      = Ok (mk, 5, {| Gin.buf := full_name_index; Gin.fpos := 74 |})
      /\ Gin.mode (mk []) = lit "100644".
Proof.
  split.
  - apply (entry_fields_need_62_bytes
             {| Gin.buf := firstn 60 full_name_index; Gin.fpos := 12 |} 1);
      [simpl; lia | vm_compute; reflexivity].
  - destruct (entry_fields_need_62_bytes
                {| Gin.buf := full_name_index; Gin.fpos := 12 |} 1 ltac:(simpl; lia))
      as [_ Hok].
    eexists. split.
    + rewrite Hok by (vm_compute; discriminate). vm_compute. reflexivity.
    + vm_compute. reflexivity.
Defined.

(** [f.read(n)] keeps the position within the file. *)
Lemma mmap_read_ok n f bs f' :
  0 <= n -> cursor_ok f ->
  Gin.mmap_read n f = (bs, f') ->
  Gin.buf f' = Gin.buf f
  /\ cursor_ok f'
  /\ Gin.fpos f' = Gin.fpos f + Z.min n (remaining f)
  /\ bs = py_slice (Gin.buf f) (Gin.fpos f) (Gin.fpos f + n).
Proof.
  unfold cursor_ok, remaining. intros Hn Hok. rewrite mmap_read_slice by lia.
  intros [= <- <-]. simpl. rewrite len_py_slice_clipped by lia.
  repeat split; lia.
Qed.

Lemma read_name_loop_ok fuel : forall f acc name f',
  cursor_ok f ->
  Gin.read_name_loop fuel f acc = Some (name, f') ->
  Gin.buf f' = Gin.buf f /\ cursor_ok f' /\ Gin.fpos f <= Gin.fpos f'.
Proof.
  induction fuel as [|fuel IH]; intros f acc name f' Hok H; [discriminate H|].
  rewrite read_name_loop_S in H.
  destruct (Gin.mmap_read 1 f) as [bs f1] eqn:Hread.
  apply mmap_read_ok in Hread as (Hbuf & Hok1 & Hpos & _); [|lia|exact Hok].
  unfold cursor_ok, remaining in *.
  destruct (bool_decide (bs = [x00])).
  - injection H as _ <-. rewrite Hbuf in *. repeat split; lia.
  - apply IH in H as (Hbuf' & Hok' & Hpos'); [|unfold cursor_ok; lia].
    rewrite Hbuf', Hbuf in *. repeat split; lia.
Qed.

Lemma _read_name_ok fuel f flags name f' :
  cursor_ok f ->
  Gin._read_name fuel f flags = Some (name, f') ->
  Gin.buf f' = Gin.buf f /\ cursor_ok f' /\ Gin.fpos f <= Gin.fpos f'.
Proof.
  intros Hok. unfold Gin._read_name, Gin.read_name_bytes.
  pose proof (name_length_range flags) as Hrange.
  destruct (_ <? _).
  - destruct (Gin.mmap_read _ f) as [bs f1] eqn:Hread. intros [= _ <-].
    apply mmap_read_ok in Hread as (Hbuf & Hok1 & Hpos & _); [|lia|exact Hok].
    unfold cursor_ok, remaining in *. rewrite Hbuf in *. repeat split; lia.
  - destruct (Gin.read_name_loop fuel f []) as [[raw f1]|] eqn:Hloop; [|discriminate].
    intros [= _ <-]. eapply read_name_loop_ok; eauto.
Qed.

(** An entry that was read: its number, its flags, and a cursor that has
    moved by at least the 62 fixed bytes. *)
Lemma _parse_entry_Ok fuel f entry_number e f' :
  cursor_ok f ->
  Gin._parse_entry fuel f entry_number = Some (Ok (e, f')) ->
  Gin.buf f' = Gin.buf f
  /\ cursor_ok f'
  /\ Gin.fpos f + 62 <= Gin.fpos f'
  /\ Gin.entry e = entry_number.
Proof.
  intros Hok. unfold Gin._parse_entry.
  destruct (read_entry_fields_eq f entry_number) as [Hshort Hfull];
    [unfold cursor_ok in Hok; lia|].
  destruct (Z.lt_ge_cases (remaining f) 62) as [Hlt|Hge].
  - rewrite (Hshort Hlt). discriminate.
  - rewrite (Hfull Hge).
    destruct (Gin._read_name _ _ _) as [[name f1]|] eqn:Hname; [|discriminate].
    intros [= <- <-].
    apply _read_name_ok in Hname as (Hbuf & Hok1 & Hpos);
      [|unfold cursor_ok, remaining in *; simpl; lia].
    simpl in *. split; [exact Hbuf|]. split; [exact Hok1|]. split; [exact Hpos|].
    reflexivity.
Qed.

(** An entry that could not be read: the file ended inside its fixed
    part. *)
Lemma _parse_entry_Raise fuel f entry_number e :
  cursor_ok f ->
  Gin._parse_entry fuel f entry_number = Some (Raise e) ->
  e = StructError /\ remaining f < 62.
Proof.
  intros Hok. unfold Gin._parse_entry.
  destruct (read_entry_fields_eq f entry_number) as [Hshort Hfull];
    [unfold cursor_ok in Hok; lia|].
  destruct (Z.lt_ge_cases (remaining f) 62) as [Hlt|Hge].
  - rewrite (Hshort Hlt). intros [= <-]. auto.
  - rewrite (Hfull Hge). destruct (Gin._read_name _ _ _) as [[name f1]|]; discriminate.
Qed.

(** X11.  An entry is its 62 fixed bytes and its name, and nothing more:
    when the name length in the flags is below 0xFFF and the name is in
    the file, [_parse_entry] leaves the cursor exactly 62 + name length
    bytes on, whatever follows; it skips no terminator and no padding to
    a multiple of eight.  The name is decoded from the bytes behind the
    flags. *)
Theorem entry_has_no_padding (fuel : nat) (f : Gin.Mmap) (entry_number : Z) :
  0 <= Gin.fpos f ->
  let b := Gin.buf f in
  let p := Gin.fpos f in
  let flags_ := be_uint (py_slice b (p + 60) (p + 62)) in
  let namelen := Z.land flags_ 0xFFF in
  namelen < 0xFFF ->
  62 + namelen <= remaining f ->
  exists e,
    Gin._parse_entry fuel f entry_number
    = Some (Ok (e, {| Gin.buf := b; Gin.fpos := p + 62 + namelen |}))
    /\ Gin.entry e = entry_number
    /\ Gin.flags e = flags_
    /\ Gin.name e = decode_utf8_replace (py_slice b (p + 62) (p + 62 + namelen)).
Proof.
  intros Hpos b p flags_ namelen Hshort Hroom.
  pose proof (name_length_range flags_) as Hrange. fold namelen in Hrange.
  unfold Gin._parse_entry.
  destruct (read_entry_fields_eq f entry_number Hpos) as [_ Hfull].
  rewrite Hfull by lia. fold b p flags_.
  unfold Gin._read_name, Gin.read_name_bytes. fold namelen.
  destruct (Z.ltb_spec namelen 4095); [|lia].
  rewrite mmap_read_slice by lia. simpl Gin.buf. simpl Gin.fpos.
  rewrite len_py_slice_inside by (unfold remaining in Hroom; fold b p in Hroom; lia).
  eexists. split; [reflexivity|]. repeat split.
Qed.

(** The entry of [full_name_index]: 62 bytes and the five of "a.txt". *)
Lemma entry_has_no_padding_witness :
  exists e,
    Gin._parse_entry 0 {| Gin.buf := full_name_index; Gin.fpos := 12 |} 1
    = Some (Ok (e, {| Gin.buf := full_name_index; Gin.fpos := 12 + 62 + 5 |}))
    /\ Gin.entry e = 1
    /\ Gin.flags e = 5
    /\ Gin.name e = lit "a.txt".
Proof.
  destruct (entry_has_no_padding 0 {| Gin.buf := full_name_index; Gin.fpos := 12 |} 1
              ltac:(simpl; lia) ltac:(vm_compute; reflexivity)
              ltac:(vm_compute; discriminate))
    as (e & Hentry & Hnum & Hflags & Hname).
  exists e. split; [exact Hentry|]. split; [exact Hnum|].
  split; [rewrite Hflags; vm_compute; reflexivity|].
  rewrite Hname. vm_compute. reflexivity.
Defined.

(** [_parse_extension] with its eight header bytes in the file, as an
    equation. *)
Lemma _parse_extension_eq f :
  0 <= Gin.fpos f -> 8 <= remaining f ->
  let b := Gin.buf f in
  let p := Gin.fpos f in
  let size_ := word_at b (p + 4) in
  Gin._parse_extension f =
  if is_ascii (py_slice b p (p + 4))
  then Ok (Gin.mkExtension (map byte_val (py_slice b p (p + 4))) size_
             (decode_utf8_replace (py_slice b (p + 8) (p + 8 + size_))),
           {| Gin.buf := b; Gin.fpos := Z.min (p + 8 + size_) (len b) |})
  else Raise UnicodeDecodeError.
Proof.
  unfold remaining. destruct f as [b p]. simpl. intros Hpos Hroom.
  unfold Gin._parse_extension. rewrite mmap_read_slice by lia.
  simpl Gin.buf. simpl Gin.fpos. rewrite len_py_slice_inside by lia.
  rewrite decode_ascii_eq.
  destruct (is_ascii (py_slice b p (p + 4))); [|reflexivity].
  cbn [mbind result_bind]. rewrite read_eq by (simpl; lia).
  simpl Gin.buf. simpl Gin.fpos.
  destruct (Z.leb_spec (p + 4 + 4) (len b)); [|lia]. cbn [mbind result_bind].
  change (be_uint (py_slice b (p + 4) (p + 4 + 4))) with (word_at b (p + 4)).
  assert (0 <= word_at b (p + 4)) as Hsize by (unfold word_at; apply be_uint_range).
  rewrite mmap_read_slice by lia. simpl Gin.buf. simpl Gin.fpos.
  rewrite len_py_slice_clipped by lia.
  replace (p + 4 + 4) with (p + 8) by lia.
  do 3 f_equal. lia.
Qed.

(** What the entry loop yields: entries numbered on from [n + 1]; it is
    cut short only by [struct.error]. *)
Lemma parse_entries_shape fuel count : forall n f items r,
  cursor_ok f ->
  Gin.parse_entries fuel count n f = Some (items, r) ->
  exists es,
    items = map Gin.IEntry es
    /\ (forall i e, es !! i = Some e -> Gin.entry e = n + 1 + Z.of_nat i)
    /\ (length es <= count)%nat
    /\ (forall e, r = Raise e -> e = StructError)
    /\ (forall f', r = Ok f' ->
          length es = count /\ Gin.buf f' = Gin.buf f /\ cursor_ok f').
Proof.
  induction count as [|count IH]; intros n f items r Hok H; simpl in H.
  - injection H as <- <-. exists []. split; [reflexivity|].
    split; [intros i e Hi; now rewrite lookup_nil in Hi|].
    split; [simpl; lia|]. split; [discriminate|].
    intros f' [= <-]. auto.
  - destruct (Gin._parse_entry fuel f (n + 1)) as [[[e f1]|err]|] eqn:Hentry;
      [| |discriminate H].
    + apply _parse_entry_Ok in Hentry as (Hbuf & Hok1 & _ & Hnum); [|exact Hok].
      destruct (Gin.parse_entries fuel count (n + 1) f1) as [[items' r']|] eqn:Hrest;
        [|discriminate H].
      injection H as <- <-.
      apply IH in Hrest as (es & -> & Hnums & Hlen & Herr & Hend); [|exact Hok1].
      exists (e :: es). split; [reflexivity|]. split; [|split; [simpl; lia|split]].
      * intros [|i] e' Hi; simpl in Hi.
        -- injection Hi as <-. lia.
        -- apply Hnums in Hi. lia.
      * exact Herr.
      * intros f' Hf'. destruct (Hend f' Hf') as (Hl & Hb & Ho).
        simpl. rewrite Hl, Hb, Hbuf. auto.
    + apply _parse_entry_Raise in Hentry as [-> _]; [|exact Hok].
      injection H as <- <-. exists []. split; [reflexivity|].
      split; [intros i e Hi; now rewrite lookup_nil in Hi|].
      split; [simpl; lia|]. split; [now intros e [= <-] | discriminate].
Qed.

(** What the extension loop yields; it is cut short only by a signature
    that is not ASCII. *)
Lemma parse_extensions_shape fuel : forall f items r,
  cursor_ok f ->
  Gin.parse_extensions fuel f = Some (items, r) ->
  exists xs,
    items = map Gin.IExtension xs
    /\ (forall e, r = Raise e -> e = UnicodeDecodeError)
    /\ (forall f', r = Ok f' ->
          Gin.buf f' = Gin.buf f /\ cursor_ok f' /\ remaining f' < 21).
Proof.
  induction fuel as [|fuel IH]; intros f items r Hok H; [discriminate H|].
  rewrite parse_extensions_S in H. unfold cursor_ok in Hok.
  destruct (Z.ltb_spec (Gin.fpos f) (len (Gin.buf f) - 20)) as [Hmore|Hstop].
  - rewrite _parse_extension_eq in H by (unfold remaining; lia).
    destruct (is_ascii _).
    + destruct (Gin.parse_extensions fuel _) as [[items' r']|] eqn:Hrest;
        [|discriminate H].
      injection H as <- <-.
      assert (0 <= word_at (Gin.buf f) (Gin.fpos f + 4)) as Hsize
        by (unfold word_at; apply be_uint_range).
      apply IH in Hrest as (xs & -> & Herr & Hend);
        [|unfold cursor_ok; simpl; lia].
      eexists (_ :: xs). split; [reflexivity|]. split; [exact Herr|].
      intros f' Hf'. destruct (Hend f' Hf') as (Hb & Ho & Hr). simpl in Hb. auto.
    + injection H as <- <-. exists []. split; [reflexivity|].
      split; [now intros e [= <-] | discriminate].
  - injection H as <- <-. exists []. split; [reflexivity|].
    split; [discriminate|]. intros f' [= <-].
    unfold cursor_ok, remaining. repeat split; lia.
Qed.

Lemma len_hexlify bs : len (Gin.hexlify bs) = 2 * len bs.
Proof.
  unfold len, Gin.hexlify. induction bs as [|b bs IH]; [reflexivity|].
  simpl flat_map. simpl length in *. lia.
Qed.

(** Every run of [parse] that ends, by the place where it ends. *)
Lemma parse_run fuel content r :
  Gin.parse fuel content = Some r ->
  (content = [] /\ r = Gin.mkRun [] [] (Gin.Raised ValueError))
  \/ (content <> [] /\ r = Gin.mkRun [] [] (Gin.Raised UnicodeDecodeError))
  \/ (content <> [] /\ r = Gin.mkRun [] [] (Gin.Raised StructError))
  \/ (content <> [] /\ exists msg, r = Gin.mkRun [] [msg] (Gin.Raised (SystemExit 1)))
  \/ (12 <= len content
      /\ exists es xs tail how,
          r = Gin.mkRun
                (Gin.IHeader (Gin.mkHeader (lit "DIRC") (word_at content 4)
                                (word_at content 8))
                 :: map Gin.IEntry es ++ map Gin.IExtension xs ++ tail)
                [] how
          /\ (word_at content 4 = 2 \/ word_at content 4 = 3)
          /\ (forall i e, es !! i = Some e -> Gin.entry e = Z.of_nat i + 1)
          /\ (length es <= Z.to_nat (word_at content 8))%nat
          /\ ((how = Gin.Raised StructError /\ xs = [] /\ tail = [])
              \/ (how = Gin.Raised UnicodeDecodeError
                  /\ length es = Z.to_nat (word_at content 8) /\ tail = [])
              \/ (how = Gin.Finished
                  /\ length es = Z.to_nat (word_at content 8)
                  /\ exists c, tail = [Gin.IChecksum c]
                               /\ Gin.checksum c = true
                               /\ len (Gin.checksum_sha1 c) <= 40))).
Proof.
  unfold Gin.parse. intros H.
  destruct (Z.eqb_spec (len content) 0) as [Hempty|Hsome].
  { left. injection H as <-. split; [|reflexivity].
    destruct content; [reflexivity | unfold len in Hempty; simpl in Hempty; lia]. }
  assert (content <> []) as Hne by (intros ->; now apply Hsome).
  right. rewrite parse_header_eq in H.
  destruct (negb (is_ascii _)); [left; injection H as <-; auto|].
  destruct (negb (bool_decide _));
    [right; right; left; injection H as <-; eauto|].
  destruct (Z.ltb_spec (len content) 8); [right; left; injection H as <-; auto|].
  destruct ((word_at content 4 =? 2) || (word_at content 4 =? 3)) eqn:Hversion;
    cbn [negb] in H; [|right; right; left; injection H as <-; eauto].
  destruct (Z.ltb_spec (len content) 12) as [|Hlong];
    [right; left; injection H as <-; auto|].
  right. right. right. split; [exact Hlong|]. cbv zeta in H. simpl Gin.entries in H.
  assert (word_at content 4 = 2 \/ word_at content 4 = 3) as Hv.
  { apply orb_true_iff in Hversion as [Hv|Hv]; apply Z.eqb_eq in Hv; auto. }
  assert (cursor_ok {| Gin.buf := content; Gin.fpos := 12 |}) as Hok
    by (unfold cursor_ok; simpl; lia).
  destruct (Gin.parse_entries _ _ _ _) as [[items r1]|] eqn:Hentries; [|discriminate H].
  apply parse_entries_shape in Hentries as (es & -> & Hnums & Hlen & Herr & Hend);
    [|exact Hok].
  assert (forall i e, es !! i = Some e -> Gin.entry e = Z.of_nat i + 1) as Hnums'
    by (intros i e Hi; apply Hnums in Hi; lia).
  destruct r1 as [f1|e1].
  - destruct (Hend f1 eq_refl) as (Hcount & Hbuf1 & Hok1).
    destruct (Gin.parse_extensions fuel f1) as [[items r2]|] eqn:Hexts; [|discriminate H].
    apply parse_extensions_shape in Hexts as (xs & -> & Herr2 & Hend2); [|exact Hok1].
    destruct r2 as [f2|e2].
    + destruct (Hend2 f2 eq_refl) as (Hbuf2 & Hok2 & Hrem2).
      unfold Gin._parse_checksum in H.
      destruct (Gin.mmap_read 20 f2) as [bs f3] eqn:Hsum. injection H as <-.
      apply mmap_read_ok in Hsum as (_ & _ & _ & ->); [|lia|exact Hok2].
      exists es, xs, [Gin.IChecksum
                        (Gin.mkChecksum true
                           (Gin.hexlify (py_slice (Gin.buf f2) (Gin.fpos f2)
                                           (Gin.fpos f2 + 20))))],
        Gin.Finished.
      split; [reflexivity|]. split; [exact Hv|]. split; [exact Hnums'|].
      split; [exact Hlen|]. right. right. split; [reflexivity|].
      split; [exact Hcount|]. eexists. split; [reflexivity|]. split; [reflexivity|].
      simpl. rewrite len_hexlify.
      unfold cursor_ok in Hok2. rewrite len_py_slice_clipped by lia. lia.
    + injection H as <-. rewrite (Herr2 e2 eq_refl).
      exists es, xs, [], (Gin.Raised UnicodeDecodeError).
      split; [now rewrite app_nil_r|]. split; [exact Hv|]. split; [exact Hnums'|].
      split; [exact Hlen|]. right. left. auto.
  - injection H as <-. rewrite (Herr e1 eq_refl).
    exists es, [], [], (Gin.Raised StructError).
    split; [now rewrite !app_nil_r|]. split; [exact Hv|]. split; [exact Hnums'|].
    split; [exact Hlen|]. left. auto.
Qed.

(** X12.  What a run of the decoder yields, when it yields anything: the
    header record first, with the signature "DIRC", version 2 or 3 and
    the entry count of bytes 8..11; then the entries, numbered from 1
    without a gap, no more of them than the count; then the extensions.
    A run that finishes has yielded as many entries as the header counts
    and ends with one checksum record of at most 40 hex digits; a run
    that an exception ends has yielded no checksum record. *)
Theorem run_shape (fuel : nat) (content : list byte) (r : Gin.run) :
  Gin.parse fuel content = Some r ->
  (Gin.yielded r = [] /\ Gin.ended r <> Gin.Finished)
  \/ exists h es xs tail,
      Gin.yielded r
      = Gin.IHeader h :: map Gin.IEntry es ++ map Gin.IExtension xs ++ tail
      /\ Gin.signature h = lit "DIRC"
      /\ (Gin.version h = 2 \/ Gin.version h = 3)
      /\ Gin.entries h = word_at content 8
      /\ (forall i e, es !! i = Some e -> Gin.entry e = Z.of_nat i + 1)
      /\ (length es <= Z.to_nat (Gin.entries h))%nat
      /\ match Gin.ended r with
         | Gin.Finished =>
           length es = Z.to_nat (Gin.entries h)
           /\ exists c, tail = [Gin.IChecksum c]
                        /\ Gin.checksum c = true
                        /\ len (Gin.checksum_sha1 c) <= 40
         | Gin.Raised _ => tail = []
         end.
Proof.
  intros H.
  apply parse_run in H
    as [[_ ->]|[[_ ->]|[[_ ->]|[[_ [msg ->]]|[_ (es & xs & tail & how & -> & Hv & Hn & Hl & Hend)]]]]];
    try (left; split; [reflexivity | discriminate]).
  right. eexists _, es, xs, tail. split; [reflexivity|]. simpl.
  split; [reflexivity|]. split; [exact Hv|]. split; [reflexivity|].
  split; [exact Hn|]. split; [exact Hl|].
  destruct Hend as [(-> & _ & ->)|[(-> & _ & ->)|(-> & Hc & Hsum)]]; auto.
Qed.

(** The run on [full_name_index]: header, entry 1, checksum. *)
Lemma run_shape_witness :
  (Gin.yielded full_name_run = [] /\ Gin.ended full_name_run <> Gin.Finished)
  \/ exists h es xs tail,
      Gin.yielded full_name_run
      = Gin.IHeader h :: map Gin.IEntry es ++ map Gin.IExtension xs ++ tail
      /\ Gin.signature h = lit "DIRC"
      /\ (Gin.version h = 2 \/ Gin.version h = 3)
      /\ Gin.entries h = word_at full_name_index 8
      /\ (forall i e, es !! i = Some e -> Gin.entry e = Z.of_nat i + 1)
      /\ (length es <= Z.to_nat (Gin.entries h))%nat
      /\ match Gin.ended full_name_run with
         | Gin.Finished =>
           length es = Z.to_nat (Gin.entries h)
           /\ exists c, tail = [Gin.IChecksum c]
                        /\ Gin.checksum c = true
                        /\ len (Gin.checksum_sha1 c) <= 40
         | Gin.Raised _ => tail = []
         end.
Proof.
  apply (run_shape 1 full_name_index full_name_run). vm_compute. reflexivity.
Defined.

(** X13.  How a run of the decoder can end: it finishes, or it is ended
    by [ValueError] (exactly for the empty file), by
    [UnicodeDecodeError], by [struct.error], or by [SystemExit] with
    status 1; the [ParsingError] that the module declares is never
    raised.  A run that [SystemExit] ends has yielded nothing and has
    written one line on stderr; every other run has written none. *)
Theorem run_endings (fuel : nat) (content : list byte) (r : Gin.run) :
  Gin.parse fuel content = Some r ->
  (Gin.ended r = Gin.Raised ValueError <-> content = [])
  /\ (forall e, Gin.ended r = Gin.Raised e ->
        e = ValueError \/ e = UnicodeDecodeError \/ e = StructError
        \/ e = SystemExit 1)
  /\ (forall code, Gin.ended r = Gin.Raised (SystemExit code) ->
        Gin.yielded r = [] /\ length (Gin.stderr r) = 1%nat)
  /\ ((forall code, Gin.ended r <> Gin.Raised (SystemExit code)) ->
      Gin.stderr r = []).
Proof.
  intros H.
  apply parse_run in H
    as [[-> ->]|[[Hne ->]|[[Hne ->]|[[Hne [msg ->]]|[Hlong (es & xs & tail & how & -> & _ & _ & _ & Hend)]]]]];
    simpl.
  - split; [tauto|]. split; [intros e [= <-]; auto|]. split; [discriminate | reflexivity].
  - split; [split; [discriminate | tauto]|].
    split; [intros e [= <-]; auto|]. split; [discriminate | reflexivity].
  - split; [split; [discriminate | tauto]|].
    split; [intros e [= <-]; auto|]. split; [discriminate | reflexivity].
  - split; [split; [discriminate | tauto]|].
    split; [intros e [= <-]; auto|]. split; [auto|].
    intros Hno. now destruct (Hno 1).
  - assert (content <> []) as Hne
      by (intros ->; unfold len in Hlong; simpl in Hlong; lia).
    destruct Hend as [(-> & _ & _)|[(-> & _ & _)|(-> & _ & _)]];
      (split; [split; [discriminate | tauto]|]);
      (split; [intros e He; try discriminate He; injection He as <-; auto|]);
      (split; [discriminate | reflexivity]).
Qed.

(** The ending of the run on "DIRD". *)
Lemma run_endings_witness :
  (Gin.ended bad_signature_run = Gin.Raised ValueError <-> bad_signature_index = [])
  /\ (forall e, Gin.ended bad_signature_run = Gin.Raised e ->
        e = ValueError \/ e = UnicodeDecodeError \/ e = StructError
        \/ e = SystemExit 1)
  /\ (forall code, Gin.ended bad_signature_run = Gin.Raised (SystemExit code) ->
        Gin.yielded bad_signature_run = []
        /\ length (Gin.stderr bad_signature_run) = 1%nat)
  /\ ((forall code, Gin.ended bad_signature_run <> Gin.Raised (SystemExit code)) ->
      Gin.stderr bad_signature_run = []).
Proof.
  apply (run_endings 0 bad_signature_index bad_signature_run). vm_compute. reflexivity.
Defined.

Lemma read_name_loop_mono fuel : forall f acc r fuel',
  Gin.read_name_loop fuel f acc = Some r ->
  (fuel <= fuel')%nat ->
  Gin.read_name_loop fuel' f acc = Some r.
Proof.
  induction fuel as [|fuel IH]; intros f acc r fuel' H Hle; [discriminate H|].
  destruct fuel' as [|fuel']; [lia|]. rewrite read_name_loop_S in H |- *.
  destruct (Gin.mmap_read 1 f) as [bs f1].
  destruct (bool_decide (bs = [x00])); [exact H|]. apply IH; [exact H | lia].
Qed.

Lemma _parse_entry_mono fuel fuel' f n r :
  Gin._parse_entry fuel f n = Some r ->
  (fuel <= fuel')%nat ->
  Gin._parse_entry fuel' f n = Some r.
Proof.
  unfold Gin._parse_entry, Gin._read_name, Gin.read_name_bytes. intros H Hle.
  destruct (Gin.read_entry_fields f n) as [[[mk fl] f1]|e]; [|exact H].
  destruct (_ <? _); [exact H|].
  destruct (Gin.read_name_loop fuel f1 []) as [[raw f2]|] eqn:Hloop; [|discriminate H].
  now rewrite (read_name_loop_mono fuel f1 [] _ fuel' Hloop Hle).
Qed.

Lemma parse_entries_mono fuel fuel' count : forall n f r,
  Gin.parse_entries fuel count n f = Some r ->
  (fuel <= fuel')%nat ->
  Gin.parse_entries fuel' count n f = Some r.
Proof.
  induction count as [|count IH]; intros n f r H Hle; [exact H|]. simpl in H |- *.
  destruct (Gin._parse_entry fuel f (n + 1)) as [re|] eqn:Hentry; [|discriminate H].
  rewrite (_parse_entry_mono fuel fuel' f (n + 1) re Hentry Hle).
  destruct re as [[e f1]|err]; [|exact H].
  destruct (Gin.parse_entries fuel count (n + 1) f1) as [[items r1]|] eqn:Hrest;
    [|discriminate H].
  now rewrite (IH (n + 1) f1 _ Hrest Hle).
Qed.

Lemma parse_extensions_mono fuel : forall fuel' f r,
  Gin.parse_extensions fuel f = Some r ->
  (fuel <= fuel')%nat ->
  Gin.parse_extensions fuel' f = Some r.
Proof.
  induction fuel as [|fuel IH]; intros fuel' f r H Hle; [discriminate H|].
  destruct fuel' as [|fuel']; [lia|]. rewrite parse_extensions_S in H |- *.
  destruct (_ <? _); [|exact H].
  destruct (Gin._parse_extension f) as [[x f1]|e]; [|exact H].
  destruct (Gin.parse_extensions fuel f1) as [[items r1]|] eqn:Hrest; [|discriminate H].
  now rewrite (IH fuel' f1 _ Hrest) by lia.
Qed.

(** More iterations do not change a run that has ended. *)
Lemma parse_mono fuel fuel' content r :
  Gin.parse fuel content = Some r ->
  (fuel <= fuel')%nat ->
  Gin.parse fuel' content = Some r.
Proof.
  unfold Gin.parse. intros H Hle. destruct (_ =? _); [exact H|].
  destruct (Gin.parse_header _) as [err [[h f]|e]]; [|exact H]. cbv zeta in H |- *.
  destruct (Gin.parse_entries fuel _ 0 f) as [[es r1]|] eqn:Hentries; [|discriminate H].
  rewrite (parse_entries_mono fuel fuel' _ 0 f _ Hentries Hle).
  destruct r1 as [f1|e1]; [|exact H].
  destruct (Gin.parse_extensions fuel f1) as [[xs r2]|] eqn:Hexts; [|discriminate H].
  now rewrite (parse_extensions_mono fuel fuel' f1 _ Hexts Hle).
Qed.



(** With more iterations than bytes left, the name loop is still running
    only when no zero byte lies ahead. *)
Lemma read_name_loop_enough fuel f acc :
  cursor_ok f ->
  remaining f < Z.of_nat fuel ->
  Gin.read_name_loop fuel f acc = None ->
  x00 ∉ skipn (Z.to_nat (Gin.fpos f)) (Gin.buf f).
Proof.
  unfold cursor_ok, remaining. intros Hok Hfuel Hloop Hin.
  apply list_elem_of_split_l in Hin as (raw & tail & Hrest & Hzero).
  assert (length raw < fuel)%nat as Hlen.
  { assert (length (skipn (Z.to_nat (Gin.fpos f)) (Gin.buf f))
            = length (raw ++ x00 :: tail)) as Hl by now rewrite Hrest.
    rewrite length_drop, length_app in Hl. simpl in Hl. unfold len in *. lia. }
  rewrite (read_name_loop_terminator raw tail f acc fuel) in Hloop;
    [discriminate Hloop | lia | exact Hrest | exact Hzero | exact Hlen].
Qed.

Lemma _parse_entry_decided fuel f n :
  cursor_ok f ->
  len (Gin.buf f) < Z.of_nat fuel ->
  Gin._parse_entry fuel f n = None ->
  forall fuel', Gin._parse_entry fuel' f n = None.
Proof.
  intros Hok Hfuel H fuel'. unfold Gin._parse_entry in *.
  destruct (read_entry_fields_eq f n) as [Hshort Hfull]; [unfold cursor_ok in Hok; lia|].
  destruct (Z.lt_ge_cases (remaining f) 62) as [Hlt|Hge].
  - rewrite (Hshort Hlt) in H. discriminate H.
  - rewrite (Hfull Hge) in *.
    destruct (Gin._read_name fuel _ _) as [[name f1]|] eqn:Hname; [discriminate H|].
    clear H. unfold Gin._read_name, Gin.read_name_bytes in Hname.
    match type of Hname with context [Z.land ?fl 4095] =>
      pose proof (name_length_range fl) as Hrange;
      destruct (Z.ltb_spec (Z.land fl 4095) 4095) as [|Hlong];
        [destruct (Gin.mmap_read _ _); discriminate Hname|]
    end.
    destruct (Gin.read_name_loop fuel _ []) as [[raw f1]|] eqn:Hloop;
      [discriminate Hname|].
    unfold cursor_ok, remaining in *.
    apply read_name_loop_enough in Hloop;
      [|unfold cursor_ok; simpl; lia | unfold remaining; simpl; lia].
    rewrite read_name_runs_on; [reflexivity | simpl; lia | lia | exact Hloop].
Qed.

Lemma parse_entries_decided fuel count : forall n f,
  cursor_ok f ->
  len (Gin.buf f) < Z.of_nat fuel ->
  Gin.parse_entries fuel count n f = None ->
  forall fuel', Gin.parse_entries fuel' count n f = None.
Proof.
  induction count as [|count IH]; intros n f Hok Hfuel H fuel'; [discriminate H|].
  simpl in H |- *.
  destruct (Gin._parse_entry fuel f (n + 1)) as [[[e f1]|err]|] eqn:Hentry.
  - destruct (Gin.parse_entries fuel count (n + 1) f1) as [[items r1]|] eqn:Hrest;
      [discriminate H|].
    pose proof (_parse_entry_Ok _ _ _ _ _ Hok Hentry) as (Hbuf & Hok1 & _).
    destruct (Gin._parse_entry fuel' f (n + 1)) as [re|] eqn:Hentry'; [|reflexivity].
    assert (re = Ok (e, f1)) as ->.
    { pose proof (_parse_entry_mono _ (Nat.max fuel fuel') _ _ _ Hentry ltac:(lia)) as H1.
      pose proof (_parse_entry_mono _ (Nat.max fuel fuel') _ _ _ Hentry' ltac:(lia)) as H2.
      congruence. }
    rewrite (IH (n + 1) f1 Hok1) by (rewrite ?Hbuf; assumption). reflexivity.
  - discriminate H.
  - now rewrite (_parse_entry_decided fuel f (n + 1) Hok Hfuel Hentry fuel').
Qed.

(** X15.  The loops of the decoder need no more iterations than the file
    has bytes, plus one: a run that ends at all has ended, as the same
    run, within [len(content) + 1] iterations; and a run that is still
    looping after that many never ends. *)
Theorem run_within_file_length (content : list byte) :
  (forall fuel r,
     Gin.parse fuel content = Some r ->
     Gin.parse (S (length content)) content = Some r)
  /\ (Gin.parse (S (length content)) content = None ->
      forall fuel, Gin.parse fuel content = None).
Proof.
  assert (Hnever : Gin.parse (S (length content)) content = None ->
                   forall fuel, Gin.parse fuel content = None).
  { unfold Gin.parse. intros H fuel. destruct (_ =? _); [discriminate H|].
    rewrite parse_header_eq in *.
    destruct (negb (is_ascii _)); [discriminate H|].
    destruct (negb (bool_decide _)); [discriminate H|].
    destruct (Z.ltb_spec (len content) 8); [discriminate H|].
    destruct (negb _); [discriminate H|].
    destruct (Z.ltb_spec (len content) 12) as [|Hlong]; [discriminate H|].
    cbv zeta in *. simpl Gin.entries in *.
    assert (cursor_ok {| Gin.buf := content; Gin.fpos := 12 |}) as Hok
      by (unfold cursor_ok; simpl; lia).
    destruct (Gin.parse_entries (S (length content)) _ 0 _) as [[es r1]|] eqn:Hentries.
    - destruct r1 as [f1|e1]; [|discriminate H].
      pose proof (parse_entries_shape _ _ _ _ _ _ Hok Hentries)
        as (? & _ & _ & _ & _ & Hend).
      destruct (Hend f1 eq_refl) as (_ & Hbuf & Hok1).
      destruct (parse_extensions_ends (S (length content)) f1 Hok1)
        as (items & r2 & Hexts & _).
      { unfold remaining, cursor_ok in *. rewrite Hbuf. simpl. unfold len. lia. }
      rewrite Hexts in H. destruct r2; [|discriminate H].
      destruct (Gin._parse_checksum _); discriminate H.
    - assert (len content < Z.of_nat (S (length content))) as Hfuel
        by (unfold len; lia).
      now rewrite (parse_entries_decided _ _ _ _ Hok Hfuel Hentries fuel). }
  split; [|exact Hnever].
  intros fuel r Hrun.
  destruct (Gin.parse (S (length content)) content) as [r'|] eqn:Hbound.
  - pose proof (parse_mono _ (Nat.max fuel (S (length content))) _ _ Hrun ltac:(lia)) as H1.
    pose proof (parse_mono _ (Nat.max fuel (S (length content))) _ _ Hbound ltac:(lia)) as H2.
    congruence.
  - rewrite (Hnever eq_refl fuel) in Hrun. discriminate Hrun.
Qed.

(** The run on [terminated_name_index] with one iteration more than its
    bytes; the run on [unterminated_name_index] never ends. *)
Lemma run_within_file_length_witness :
  Gin.parse (S (length terminated_name_index)) terminated_name_index
  = Some terminated_name_run
  /\ Gin.parse 1000 unterminated_name_index = None.
Proof.
  destruct (run_within_file_length terminated_name_index) as [Hends _].
  destruct (run_within_file_length unterminated_name_index) as [_ Hnever].
  split.
  - apply (Hends 4%nat). vm_compute. reflexivity.
  - apply Hnever. vm_compute. reflexivity.
Defined.

(** X16.  An extension read that has its eight header bytes in the file
    fails only on a signature with a byte above 0x7F, with
    [UnicodeDecodeError].  Otherwise it gives the signature, the size
    read from the four bytes behind it, and the text decoded from the
    payload, which is [size] bytes or what the file still holds; the
    cursor is left behind the payload or at the end of the file. *)
Theorem extension_read_table (f : Gin.Mmap) :
  0 <= Gin.fpos f -> 8 <= remaining f ->
  let b := Gin.buf f in
  let p := Gin.fpos f in
  let size_ := word_at b (p + 4) in
  Gin._parse_extension f =
  if is_ascii (py_slice b p (p + 4))
  then Ok (Gin.mkExtension (map byte_val (py_slice b p (p + 4))) size_
             (decode_utf8_replace (py_slice b (p + 8) (p + 8 + size_))),
           {| Gin.buf := b; Gin.fpos := Z.min (p + 8 + size_) (len b) |})
  else Raise UnicodeDecodeError.
Proof. exact (_parse_extension_eq f). Qed.

(** The extension of [fitting_extension_index], and the same read after
    the first signature byte is replaced by 0xFF. *)
Lemma extension_read_table_witness :
  Gin._parse_extension fitting_extension_cursor
  = Ok (Gin.mkExtension (lit "TREE") 3 (lit "xyz"),
        {| Gin.buf := fitting_extension_index; Gin.fpos := 23 |})
  /\ Gin._parse_extension
       {| Gin.buf := firstn 12 fitting_extension_index
                     ++ xff :: skipn 13 fitting_extension_index;
          Gin.fpos := 12 |}
     = Raise UnicodeDecodeError.
Proof.
  split.
  - rewrite (extension_read_table fitting_extension_cursor)
      by (vm_compute; discriminate).
    vm_compute. reflexivity.
  - rewrite extension_read_table by (vm_compute; discriminate).
    vm_compute. reflexivity.
Defined.

(** ** Cycles of forward pointers *)













(** ** The exceptions of the metadata store *)

Lemma bind_Raise {A B} (m : result A) (k : A -> result B) (e : exn) :
  (x ← m; k x) = Raise e -> m = Raise e \/ exists a, m = Ok a /\ k a = Raise e.
Proof.
  destruct m as [a|e']; intros H; [right; eauto|].
  left. injection H as ->. reflexivity.
Qed.

Lemma offset_read_Raise n o self e :
  offset_read n o self = Raise e -> e = out_of_bounds.
Proof.
  unfold offset_read. destruct (_ <? _); [|discriminate]. now intros [= <-].
Qed.

Lemma read_u32_Raise self e :
  0 <= pos self -> read_u32 self = Raise e -> e = out_of_bounds.
Proof.
  intros Hpos. rewrite read_u32_eq by assumption.
  destruct (_ <? _); [|discriminate]. now intros [= <-].
Qed.

Lemma emit_Raise cp rest e : emit cp rest = Raise e -> rest = Raise e.
Proof. unfold emit. destruct rest; [discriminate | now intros [= <-]]. Qed.



Lemma decode_Raise bs e : decode bs = Raise e -> e = UnicodeDecodeError.
Proof.
  unfold decode.
  enough (forall n bs e, (length bs <= n)%nat ->
                         utf8_decode Strict bs = Raise e -> e = UnicodeDecodeError)
    as Hall by (apply (Hall (length bs)); lia).
  clear bs e. induction n as [|n IH]; intros [|b1 r1] e Hlen H;
    simpl in Hlen; try lia; try discriminate H.
  simpl utf8_decode in H.
  repeat match type of H with
         | context [if ?c then _ else _] => destruct c
         | context [match ?l with [] => _ | _ :: _ => _ end] =>
           destruct l as [|? ?]; cbv beta iota in H
         end;
    unfold bad in H;
    try (now injection H as <-);
    apply emit_Raise in H; (eapply IH; [|exact H]); simpl in *; lia.
Qed.


Lemma repeat_read_Raise {A} (f : DataBlock -> result (A * DataBlock))
    (Q : DataBlock -> Prop) (E : exn -> Prop) :
  (forall self x self', Q self -> f self = Ok (x, self') -> Q self') ->
  (forall self e, Q self -> f self = Raise e -> E e) ->
  forall count self e, Q self -> repeat_read f count self = Raise e -> E e.
Proof.
  intros Hok Herr. induction count as [|count IH]; intros self e HQ H; simpl in H;
    [discriminate H|].
  apply bind_Raise in H as [H|([x s1] & Hx & H)]; [eauto|].
  apply bind_Raise in H as [H|([xs s2] & _ & H)]; [eauto | discriminate H].
Qed.








Lemma read_toc_entry_Raise blk e :
  0 <= pos blk ->
  read_toc_entry blk = Raise e ->
  e = out_of_bounds \/ e = UnicodeDecodeError.
Proof.
  intros Hpos H. unfold read_toc_entry in H.
  apply bind_Raise in H as [H|([bs s1] & Hbs & H)];
    [left; eapply offset_read_Raise; eauto|].
  apply offset_read_seq_Ok in Hbs as (-> & -> & Hfit).
  apply bind_Raise in H as [H|(toc_len & Hlen & H)].
  { unfold unpack_uint in H.
    rewrite (len_py_slice_inside (data blk) (pos blk) 1) in H by lia.
    discriminate H. }
  apply unpack_uint_range in Hlen.
  apply bind_Raise in H as [H|([bs2 s2] & Hbs2 & H)];
    [left; eapply offset_read_Raise; eauto|].
  apply offset_read_seq_Ok in Hbs2 as (_ & -> & _). simpl in H.
  apply bind_Raise in H as [H|(name & _ & H)];
    [right; eapply decode_Raise; eauto|].
  apply bind_Raise in H as [H|([w s3] & _ & H)]; [|discriminate H].
  left. eapply read_u32_Raise; [|exact H]. simpl. lia.
Qed.

Lemma _read_toc_Raise blk e :
  0 <= pos blk ->
  _read_toc blk = Raise e ->
  e = out_of_bounds \/ e = UnicodeDecodeError.
Proof.
  intros Hpos H. unfold _read_toc in H.
  apply bind_Raise in H as [H|([count s1] & Hcount & H)];
    [left; eapply read_u32_Raise; eauto|].
  rewrite read_u32_eq in Hcount by assumption.
  destruct (_ <? _); [discriminate Hcount|]. injection Hcount as _ <-.
  apply bind_Raise in H as [H|([entries s2] & _ & H)]; [|discriminate H].
  apply (repeat_read_Raise read_toc_entry (fun s => 0 <= pos s)
           (fun e => e = out_of_bounds \/ e = UnicodeDecodeError)) in H; [exact H|..].
  - intros s entry s' Hs Hr. apply read_toc_entry_Ok in Hr; [lia | exact Hs].
  - intros s e' Hs Hr. eapply read_toc_entry_Raise; eauto.
  - simpl. lia.
Qed.

(** X19.  The exceptions the constructor can end with: one of the three
    refusals of the header, the out-of-bounds [ParsingError], or
    [UnicodeDecodeError] from a directory name that is not UTF-8.  It
    never ends with [struct.error] nor with [IndexError]. *)
Theorem construction_exceptions (d : list byte) (e : exn) :
  new_DS_Store d = Raise e ->
  e = ParsingError "Data length insufficient for header parsing."
  \/ e = ParsingError "Invalid magic bytes in header."
  \/ e = ParsingError "Header offset mismatch."
  \/ e = out_of_bounds
  \/ e = UnicodeDecodeError.
Proof.
  unfold new_DS_Store. cbv zeta. intros H.
  apply bind_Raise in H as [H|([hdr blk] & Hhdr & H)].
  { pose proof (_read_header_steps d) as Hsteps. cbv zeta in Hsteps.
    rewrite Hsteps in H.
    repeat match type of H with
           | (if ?c then _ else _) = _ => destruct c
           end; try discriminate H; injection H as <-; auto 6. }
  assert (blk = {| data := d; pos := 36 |}) as ->.
  { pose proof (_read_header_steps d) as Hsteps. cbv zeta in Hsteps.
    rewrite Hsteps in Hhdr.
    repeat match type of Hhdr with
           | (if ?c then _ else _) = _ => destruct c; try discriminate Hhdr
           end. now injection Hhdr as _ <-. }
  apply bind_Raise in H as [H|([offs blk] & Hoffs & H)].
  { rewrite _read_offsets_eq in H by (simpl; lia). cbv zeta in H.
    destruct (_ || _); [injection H as <-; auto 6 | discriminate H]. }
  rewrite _read_offsets_eq in Hoffs by (simpl; lia). cbv zeta in Hoffs.
  destruct (_ || _); [discriminate Hoffs|]. injection Hoffs as _ <-.
  apply bind_Raise in H as [H|([t blk] & _ & H)]; [|discriminate H].
  apply _read_toc_Raise in H as [->| ->]; auto 6.
  simpl. pose proof (be_uint_range (py_slice d 36 (36 + 4))) as Hw.
  fold (word_at d 36) in Hw. lia.
Qed.

(** The constructor on the bytes of [chain_store_bytes] with byte 61, the
    first of the directory name, replaced by FF. *)
Lemma construction_exceptions_witness :
  new_DS_Store (firstn 61 chain_store_bytes ++ xff :: skipn 62 chain_store_bytes)
  = Raise UnicodeDecodeError
  /\ (UnicodeDecodeError
      = ParsingError "Data length insufficient for header parsing."
      \/ UnicodeDecodeError = ParsingError "Invalid magic bytes in header."
      \/ UnicodeDecodeError = ParsingError "Header offset mismatch."
      \/ UnicodeDecodeError = out_of_bounds
      \/ UnicodeDecodeError = UnicodeDecodeError).
Proof.
  assert (Hrun : new_DS_Store
                   (firstn 61 chain_store_bytes ++ xff :: skipn 62 chain_store_bytes)
                 = Raise UnicodeDecodeError)
    by (vm_compute; reflexivity).
  split; [exact Hrun|]. exact (construction_exceptions _ _ Hrun).
Defined.
